(** * Academic-Search-TestLab: the book-information test bench

    A shallow embedding of [src/app/page.tsx] (the [Home] component): the
    API-key list, the five question slots, the per-slot request life cycle
    ([processQuestion]), the "run all" fan-out ([handleSubmitAll]) and the
    clean-up of the model's answer before [JSON.parse].

    Strings are Rocq [string]s read as the UTF-8 bytes of the JavaScript
    string.  The component state of React is one record; the handlers are
    functions on it.  The five slot objects are created once and only ever
    mutated in place (every [[...questions]] copies the array, never an
    element), so the array of slots is one shared store: an update of
    [newQuestions[index]] is an [alter] at [index] of that store. *)

From Stdlib Require Import Ascii String.
From stdpp Require Import base list sets strings.

Local Open Scope string_scope.
Set Warnings "-register-all,-clear-no-such-hyp".

(** ** JavaScript strings *)

Module JsString.

(** [!!s]: a string is truthy when it is not empty. *)
Definition truthy (s : string) : bool :=
  match s with
  | EmptyString => false
  | String _ _ => true
  end.

(** The white space and line terminators of ECMAScript, as UTF-8 byte
    sequences of one, two and three bytes:
    TAB, LF, VT, FF, CR and SPACE; U+00A0; U+1680, U+2000..U+200A, U+2028,
    U+2029, U+202F, U+205F, U+3000 and U+FEFF. *)
Definition ws1 (c : ascii) : bool :=
  existsb (N.eqb (N_of_ascii c)) [9; 10; 11; 12; 13; 32]%N.

Definition ws2 (c1 c2 : ascii) : bool :=
  N.eqb (N_of_ascii c1) 194 && N.eqb (N_of_ascii c2) 160.

Definition ws3 (c1 c2 c3 : ascii) : bool :=
  existsb (λ t : N * N * N,
             N.eqb (N_of_ascii c1) t.1.1 && N.eqb (N_of_ascii c2) t.1.2
             && N.eqb (N_of_ascii c3) t.2)
    [(225, 154, 128); (226, 128, 128); (226, 128, 129); (226, 128, 130);
     (226, 128, 131); (226, 128, 132); (226, 128, 133); (226, 128, 134);
     (226, 128, 135); (226, 128, 136); (226, 128, 137); (226, 128, 138);
     (226, 128, 168); (226, 128, 169); (226, 128, 175); (226, 129, 159);
     (227, 128, 128); (239, 187, 191)]%N.

(** [String.prototype.trimStart]. *)
Fixpoint trimStart (s : string) : string :=
  match s with
  | String c1 r1 =>
      if ws1 c1 then trimStart r1 else
      match r1 with
      | String c2 r2 =>
          if ws2 c1 c2 then trimStart r2 else
          match r2 with
          | String c3 r3 => if ws3 c1 c2 c3 then trimStart r3 else s
          | EmptyString => s
          end
      | EmptyString => s
      end
  | EmptyString => s
  end.

(** The same scan on the reversed bytes: the code point read at the end of
    the string comes last byte first. *)
Fixpoint trimStart_rev (s : string) : string :=
  match s with
  | String c1 r1 =>
      if ws1 c1 then trimStart_rev r1 else
      match r1 with
      | String c2 r2 =>
          if ws2 c2 c1 then trimStart_rev r2 else
          match r2 with
          | String c3 r3 => if ws3 c3 c2 c1 then trimStart_rev r3 else s
          | EmptyString => s
          end
      | EmptyString => s
      end
  | EmptyString => s
  end.

Fixpoint rev_onto (s acc : string) : string :=
  match s with
  | EmptyString => acc
  | String c r => rev_onto r (String c acc)
  end.

Definition reverse (s : string) : string := rev_onto s "".

(** [String.prototype.trimEnd]. *)
Definition trimEnd (s : string) : string :=
  reverse (trimStart_rev (reverse s)).

(** [String.prototype.trim]. *)
Definition trim (s : string) : string := trimEnd (trimStart s).

(** [s.startsWith(p)]. *)
Fixpoint startsWith (p s : string) : bool :=
  match p, s with
  | EmptyString, _ => true
  | String a p', String b s' => if Ascii.eqb a b then startsWith p' s' else false
  | String _ _, EmptyString => false
  end.

(** [s.slice(n)]. *)
Fixpoint drop (n : nat) (s : string) : string :=
  match n, s with
  | O, _ => s
  | S n', String _ s' => drop n' s'
  | S _, EmptyString => EmptyString
  end.

End JsString.
Export JsString.

(** ** [JSON.parse]

    The built-in is modelled after the JSON grammar of ECMA-404, which
    ECMAScript's [JSON.parse] implements: white space is TAB, LF, CR and
    SPACE only; strings may not hold raw control characters; numbers have
    no leading zero or plus sign; nothing but white space may follow the
    value. *)

Module Json.

(** A parsed value.  A number keeps its lexeme (no claim below depends on
    its numeric value); an object keeps its members in insertion order. *)
Inductive json : Type :=
| JNull
| JBool (b : bool)
| JNumber (lexeme : string)
| JString (s : string)
| JArray (items : list json)
| JObject (members : list (string * json)).

Definition dquote : ascii := "034".

(** ["s"] as it appears in a JSON text. *)
Definition quoted (s : string) : string :=
  String dquote (s ++ String dquote "").

Definition json_ws (c : ascii) : bool :=
  match c with
  | "009" | "010" | "013" | " " => true
  | _ => false
  end%char.

Fixpoint skip_ws (s : string) : string :=
  match s with
  | String c r => if json_ws c then skip_ws r else s
  | EmptyString => s
  end.

Definition is_digit (c : ascii) : bool :=
  let n := N_of_ascii c in ((48 <=? n) && (n <=? 57))%N.

Definition hex_val (c : ascii) : option N :=
  let n := N_of_ascii c in
  if ((48 <=? n) && (n <=? 57))%N then Some (n - 48)%N
  else if ((65 <=? n) && (n <=? 70))%N then Some (n - 55)%N
  else if ((97 <=? n) && (n <=? 102))%N then Some (n - 87)%N
  else None.

Definition hex4 (h1 h2 h3 h4 : ascii) : option N :=
  match hex_val h1, hex_val h2, hex_val h3, hex_val h4 with
  | Some a, Some b, Some c, Some d => Some (((a * 16 + b) * 16 + c) * 16 + d)%N
  | _, _, _, _ => None
  end.

(** The UTF-8 bytes of a code point (a lone surrogate is written the same
    way as any other three-byte code point). *)
Definition utf8 (cp : N) : string :=
  let b n := ascii_of_N n in
  (if cp <? 128 then String (b cp) ""
   else if cp <? 2048 then
     String (b (192 + cp / 64)) (String (b (128 + cp mod 64)) "")
   else if cp <? 65536 then
     String (b (224 + cp / 4096))
       (String (b (128 + (cp / 64) mod 64)) (String (b (128 + cp mod 64)) ""))
   else
     String (b (240 + cp / 262144))
       (String (b (128 + (cp / 4096) mod 64))
          (String (b (128 + (cp / 64) mod 64)) (String (b (128 + cp mod 64)) ""))))%N.

(** What a string literal holds: a byte taken as it is, or the UTF-16 code
    unit of a [\uXXXX] escape. *)
Inductive item : Type :=
| Byte (c : ascii)
| Unit16 (u : N).

Definition simple_escape (e : ascii) : option ascii :=
  match e with
  | "034" => Some "034"
  | "\" => Some "\"
  | "/" => Some "/"
  | "b" => Some "008"
  | "f" => Some "012"
  | "n" => Some "010"
  | "r" => Some "013"
  | "t" => Some "009"
  | _ => None
  end%char.

(** The characters of a string literal after its opening quote, up to the
    closing quote; [None] when the literal is malformed or unterminated. *)
Fixpoint scan_string (s : string) : option (list item * string) :=
  match s with
  | EmptyString => None
  | String c r =>
      if Ascii.eqb c dquote then Some ([], r)
      else if Ascii.eqb c "\" then
        match r with
        | String e r1 =>
            match simple_escape e with
            | Some b =>
                match scan_string r1 with
                | Some (its, rest) => Some (Byte b :: its, rest)
                | None => None
                end
            | None =>
                if Ascii.eqb e "u" then
                  match r1 with
                  | String h1 (String h2 (String h3 (String h4 r2))) =>
                      match hex4 h1 h2 h3 h4 with
                      | Some u =>
                          match scan_string r2 with
                          | Some (its, rest) => Some (Unit16 u :: its, rest)
                          | None => None
                          end
                      | None => None
                      end
                  | _ => None
                  end
                else None
            end
        | EmptyString => None
        end
      else if (N_of_ascii c <? 32)%N then None
      else
        match scan_string r with
        | Some (its, rest) => Some (Byte c :: its, rest)
        | None => None
        end
  end.

Definition high_surrogate (u : N) : bool := ((55296 <=? u) && (u <=? 56319))%N.
Definition low_surrogate (u : N) : bool := ((56320 <=? u) && (u <=? 57343))%N.

(** The value of a string literal: a surrogate pair is one code point. *)
Fixpoint decode (its : list item) : string :=
  match its with
  | [] => ""
  | Byte c :: r => String c (decode r)
  | Unit16 u :: r =>
      match r with
      | Unit16 v :: r' =>
          if high_surrogate u && low_surrogate v
          then utf8 (65536 + (u - 55296) * 1024 + (v - 56320))%N ++ decode r'
          else utf8 u ++ decode r
      | _ => utf8 u ++ decode r
      end
  end.

Fixpoint digits (s : string) : string * string :=
  match s with
  | String c r =>
      if is_digit c then let (ds, rest) := digits r in (String c ds, rest)
      else ("", s)
  | EmptyString => ("", s)
  end.

(** A number: an optional minus sign; [0], or a digit from 1 to 9 and then
    any digits; an optional fraction of a dot and at least one digit; an
    optional exponent of [e] or [E], an optional sign and at least one
    digit.  The lexeme and the rest of the text are returned. *)
Definition scan_int (s : string) : option (string * string) :=
  if startsWith "0" s then Some ("0", drop 1 s)
  else let (ds, rest) := digits s in
       if truthy ds then Some (ds, rest) else None.

Definition scan_frac (s : string) : option (string * string) :=
  if startsWith "." s then
    let (ds, rest) := digits (drop 1 s) in
    if truthy ds then Some (String "." ds, rest) else None
  else Some ("", s).

Definition scan_exp (s : string) : option (string * string) :=
  let e := if startsWith "e" s then "e" else if startsWith "E" s then "E" else "" in
  if truthy e then
    let s1 := drop 1 s in
    let sg := if startsWith "+" s1 then "+" else if startsWith "-" s1 then "-" else "" in
    let (ds, rest) := digits (drop (String.length sg) s1) in
    if truthy ds then Some (e ++ sg ++ ds, rest) else None
  else Some ("", s).

Definition scan_number (s : string) : option (string * string) :=
  let sign := if startsWith "-" s then "-" else "" in
  match scan_int (drop (String.length sign) s) with
  | None => None
  | Some (ip, s2) =>
      match scan_frac s2 with
      | None => None
      | Some (fp, s3) =>
          match scan_exp s3 with
          | None => None
          | Some (ep, s4) => Some (sign ++ ip ++ fp ++ ep, s4)
          end
      end
  end.

(** [obj[k] = v]: a repeated key keeps its place and takes the new value. *)
Fixpoint obj_set (k : string) (v : json) (ms : list (string * json)) : list (string * json) :=
  match ms with
  | [] => [(k, v)]
  | (k', v') :: r => if String.eqb k k' then (k, v) :: r else (k', v') :: obj_set k v r
  end.

Inductive parse_result : Type :=
| Parsed (v : json) (rest : string)
| Malformed
| OutOfFuel.

(** Recursive descent; [n] bounds the nesting of calls. *)
Fixpoint parse_value (n : nat) (s : string) {struct n} : parse_result :=
  match n with
  | O => OutOfFuel
  | S n' =>
      let s := skip_ws s in
      if startsWith "{" s then
        let r := skip_ws (drop 1 s) in
        if startsWith "}" r then Parsed (JObject []) (drop 1 r)
        else parse_members n' r []
      else if startsWith "[" s then
        let r := skip_ws (drop 1 s) in
        if startsWith "]" r then Parsed (JArray []) (drop 1 r)
        else parse_elements n' r []
      else if startsWith (String dquote "") s then
        match scan_string (drop 1 s) with
        | Some (its, rest) => Parsed (JString (decode its)) rest
        | None => Malformed
        end
      else if startsWith "true" s then Parsed (JBool true) (drop 4 s)
      else if startsWith "false" s then Parsed (JBool false) (drop 5 s)
      else if startsWith "null" s then Parsed JNull (drop 4 s)
      else
        match scan_number s with
        | Some (lx, rest) => Parsed (JNumber lx) rest
        | None => Malformed
        end
  end
with parse_elements (n : nat) (s : string) (acc : list json) {struct n} : parse_result :=
  match n with
  | O => OutOfFuel
  | S n' =>
      match parse_value n' s with
      | Parsed v r =>
          let r := skip_ws r in
          if startsWith "," r then parse_elements n' (drop 1 r) (acc ++ [v])%list
          else if startsWith "]" r then Parsed (JArray (acc ++ [v])%list) (drop 1 r)
          else Malformed
      | other => other
      end
  end
with parse_members (n : nat) (s : string) (acc : list (string * json)) {struct n} : parse_result :=
  match n with
  | O => OutOfFuel
  | S n' =>
      let s := skip_ws s in
      if startsWith (String dquote "") s then
        match scan_string (drop 1 s) with
        | Some (its, r1) =>
            let r1 := skip_ws r1 in
            if startsWith ":" r1 then
              match parse_value n' (drop 1 r1) with
              | Parsed v r3 =>
                  let r3 := skip_ws r3 in
                  if startsWith "," r3
                  then parse_members n' (drop 1 r3) (obj_set (decode its) v acc)
                  else if startsWith "}" r3
                  then Parsed (JObject (obj_set (decode its) v acc)) (drop 1 r3)
                  else Malformed
              | other => other
              end
            else Malformed
        | None => Malformed
        end
      else Malformed
  end.

(** Enough fuel for any text: a call either consumes a character or is
    followed by one that does. *)
Definition fuel_for (s : string) : nat := 2 * String.length s + 2.

(** [JSON.parse(s)]: the value, or [None] for the [SyntaxError]. *)
Definition parse (s : string) : option json :=
  match parse_value (fuel_for s) s with
  | Parsed v rest =>
      match skip_ws rest with
      | EmptyString => Some v
      | String _ _ => None
      end
  | Malformed | OutOfFuel => None
  end.

End Json.
Export Json.

(** ** The component state *)

(** [interface BookInfo] *)
Record BookInfo : Type := {
  title : string;
  author : string;
  publisher : string;
  publicationYear : string;
  genre : string;
  language : string
}.

(** The object a [BookInfo] is at run time. *)
Definition BookInfo_json (b : BookInfo) : json :=
  JObject [("title", JString (title b)); ("author", JString (author b));
           ("publisher", JString (publisher b));
           ("publicationYear", JString (publicationYear b));
           ("genre", JString (genre b)); ("language", JString (language b))].

(** [interface QuestionResult].  [result] holds whatever [JSON.parse]
    returned (the annotation [BookInfo] is not checked at run time);
    [None] is JavaScript's [null] in both nullable fields. *)
Record QuestionResult : Type := {
  question : string;
  result : option json;
  error : option string;
  isLoading : bool
}.

(** A value stored in a field of type [BookInfo | null]: the JSON text
    [null] parses to [null] itself. *)
Definition nullable (v : json) : option json :=
  match v with
  | JNull => None
  | _ => Some v
  end.

(** One [model.generateContent] call: the slot it was made for, the key the
    client was built with and the question put into the prompt. *)
Record Call : Type := {
  call_index : nat;
  call_apiKey : string;
  call_question : string
}.

(** The [useState] cells of [Home], followed by what the component did to
    its environment: the calls made so far (a call's number is its position
    in [calls]), the calls not yet settled and the alerts shown. *)
Record Home : Type := {
  apiKeys : list string;
  selectedApiKey : string;
  newApiKey : string;
  showAddForm : bool;
  questions : list QuestionResult;
  calls : list Call;
  pending : list nat;
  alerts : list string
}.

Definition blank (q : string) : QuestionResult :=
  {| question := q; result := None; error := None; isLoading := false |}.

Definition initial : Home :=
  {| apiKeys := []; selectedApiKey := ""; newApiKey := ""; showAddForm := false;
     questions := [blank "J.K. 롤링의 해리포터 찾아줘."; blank ""; blank ""; blank ""; blank ""];
     calls := []; pending := []; alerts := [] |}.

Definition MSG_REQUIRED : string := "API 키와 질문을 모두 입력해주세요.".
Definition MSG_UNKNOWN : string := "알 수 없는 오류가 발생했습니다.".
Definition ALERT_KEY : string := "API 키를 선택해주세요.".
Definition ALERT_QUESTION : string := "최소 하나의 질문을 입력해주세요.".

(** *** Setters *)

Definition setNewApiKey (v : string) (st : Home) : Home :=
  {| apiKeys := apiKeys st; selectedApiKey := selectedApiKey st; newApiKey := v;
     showAddForm := showAddForm st; questions := questions st;
     calls := calls st; pending := pending st; alerts := alerts st |}.

Definition setSelectedApiKey (v : string) (st : Home) : Home :=
  {| apiKeys := apiKeys st; selectedApiKey := v; newApiKey := newApiKey st;
     showAddForm := showAddForm st; questions := questions st;
     calls := calls st; pending := pending st; alerts := alerts st |}.

Definition setApiKeys (v : list string) (st : Home) : Home :=
  {| apiKeys := v; selectedApiKey := selectedApiKey st; newApiKey := newApiKey st;
     showAddForm := showAddForm st; questions := questions st;
     calls := calls st; pending := pending st; alerts := alerts st |}.

Definition setShowAddForm (v : bool) (st : Home) : Home :=
  {| apiKeys := apiKeys st; selectedApiKey := selectedApiKey st; newApiKey := newApiKey st;
     showAddForm := v; questions := questions st;
     calls := calls st; pending := pending st; alerts := alerts st |}.

Definition setQuestions (v : list QuestionResult) (st : Home) : Home :=
  {| apiKeys := apiKeys st; selectedApiKey := selectedApiKey st; newApiKey := newApiKey st;
     showAddForm := showAddForm st; questions := v;
     calls := calls st; pending := pending st; alerts := alerts st |}.

(** [alert(msg)] *)
Definition alert (msg : string) (st : Home) : Home :=
  {| apiKeys := apiKeys st; selectedApiKey := selectedApiKey st; newApiKey := newApiKey st;
     showAddForm := showAddForm st; questions := questions st;
     calls := calls st; pending := pending st; alerts := (alerts st ++ [msg])%list |}.

(** [model.generateContent(finalPrompt)] is started: the call is logged and
    waits for the service. *)
Definition generateContent (c : Call) (st : Home) : Home :=
  {| apiKeys := apiKeys st; selectedApiKey := selectedApiKey st; newApiKey := newApiKey st;
     showAddForm := showAddForm st; questions := questions st;
     calls := (calls st ++ [c])%list;
     pending := (pending st ++ [length (calls st)])%list;
     alerts := alerts st |}.

(** The awaited call [id] is over. *)
Definition settled (id : nat) (st : Home) : Home :=
  {| apiKeys := apiKeys st; selectedApiKey := selectedApiKey st; newApiKey := newApiKey st;
     showAddForm := showAddForm st; questions := questions st;
     calls := calls st; pending := filter (λ j, j ≠ id) (pending st);
     alerts := alerts st |}.

(** Assignments to the fields of one slot object. *)
Definition with_question (v : string) (q : QuestionResult) : QuestionResult :=
  {| question := v; result := result q; error := error q; isLoading := isLoading q |}.

Definition with_result (v : option json) (q : QuestionResult) : QuestionResult :=
  {| question := question q; result := v; error := error q; isLoading := isLoading q |}.

Definition with_error (v : option string) (q : QuestionResult) : QuestionResult :=
  {| question := question q; result := result q; error := v; isLoading := isLoading q |}.

Definition with_isLoading (v : bool) (q : QuestionResult) : QuestionResult :=
  {| question := question q; result := result q; error := error q; isLoading := v |}.

(** ** API keys *)

(** [handleAddApiKey]: the key is read from the input buffer [newApiKey]. *)
Definition handleAddApiKey (st : Home) : Home :=
  if truthy (trim (newApiKey st)) && negb (bool_decide (trim (newApiKey st) ∈ apiKeys st))
  then
    let updatedKeys := (apiKeys st ++ [trim (newApiKey st)])%list in
    setShowAddForm false
      (setNewApiKey "" (setSelectedApiKey (trim (newApiKey st)) (setApiKeys updatedKeys st)))
  else st.

(** Typing [raw] into the input and pressing the add button. *)
Definition addCredential (raw : string) (st : Home) : Home :=
  handleAddApiKey (setNewApiKey raw st).

(** [updatedKeys[0] || ""] *)
Definition first_or_empty (keys : list string) : string :=
  match keys with
  | k :: _ => if truthy k then k else ""
  | [] => ""
  end.

(** [handleDeleteApiKey] *)
Definition handleDeleteApiKey (keyToDelete : string) (st : Home) : Home :=
  let updatedKeys := filter (λ key, key ≠ keyToDelete) (apiKeys st) in
  let st1 := setApiKeys updatedKeys st in
  if bool_decide (selectedApiKey st = keyToDelete)
  then setSelectedApiKey (first_or_empty updatedKeys) st1
  else st1.

(** ** Question slots *)

(** [updateQuestion]; an index outside the array throws before any state
    is set. *)
Definition updateQuestion (index : nat) (text : string) (st : Home) : Home :=
  setQuestions (alter (with_question text) index (questions st)) st.

(** The promise an [async] call returns, as far as the component can tell:
    already fulfilled, rejected, or waiting for call [id] to settle. *)
Inductive promise : Type :=
| Fulfilled
| Rejected
| Awaits (id : nat).

(** The three assignments before the [try]: [isLoading = true],
    [result = null], [error = null]. *)
Definition begin_run (q : QuestionResult) : QuestionResult :=
  with_error None (with_result None (with_isLoading true q)).

(** [processQuestion], up to its [await].  [questions[index]] of an index
    outside the array is [undefined], and reading its field throws: the
    promise is rejected and no state is set. *)
Definition processQuestion (index : nat) (st : Home) : Home * promise :=
  match questions st !! index with
  | None => (st, Rejected)
  | Some q =>
      if negb (truthy (trim (selectedApiKey st))) || negb (truthy (trim (question q)))
      then
        (setQuestions (alter (with_error (Some MSG_REQUIRED)) index (questions st)) st,
         Fulfilled)
      else
        let st1 := setQuestions (alter begin_run index (questions st)) st in
        let c := {| call_index := index; call_apiKey := selectedApiKey st;
                    call_question := question q |} in
        (generateContent c st1, Awaits (length (calls st)))
  end.

(** *** Cleaning the answer *)

(** The second alternative of the pattern, [```$], tried at each position
    from left to right: it matches where exactly three backticks are left. *)
Fixpoint strip_closing (s : string) : string :=
  match s with
  | EmptyString => ""
  | String c r => if String.eqb s "```" then "" else String c (strip_closing r)
  end.

(** [.replace(/^```json|```$/g, "")]: the first alternative can match at
    position 0 only, and is tried there first; after it the scan goes on
    with the second alternative. *)
Definition replace_fences (s : string) : string :=
  if startsWith "```json" s then strip_closing (drop 7 s) else strip_closing s.

Definition cleanJsonStr (responseText : string) : string :=
  trim (replace_fences (trim responseText)).

(** How the awaited call ends: the service answered with a text, or
    something was thrown, an [Error] with its message or any other value. *)
Inductive outcome : Type :=
| Responded (responseText : string)
| ThrewError (message : string)
| ThrewOther.

Section Engine.

Set Default Proof Using "Type".

(** The message of the [SyntaxError] that [JSON.parse] throws for a text;
    its wording is the JavaScript engine's. *)
Variable syntax_error_message : string -> string.

(** [JSON.parse(s)]: the value, or the message of the error thrown. *)
Definition JSON_parse (s : string) : json + string :=
  match Json.parse s with
  | Some v => inl v
  | None => inr (syntax_error_message s)
  end.

(** The rest of the [try], the [catch] and the [finally] of
    [processQuestion], on the slot object. *)
Definition finish (o : outcome) (q : QuestionResult) : QuestionResult :=
  let q1 :=
    match o with
    | Responded responseText =>
        match JSON_parse (cleanJsonStr responseText) with
        | inl data => with_error None (with_result (nullable data) q)
        | inr message => with_error (Some message) q
        end
    | ThrewError message => with_error (Some message) q
    | ThrewOther => with_error (Some MSG_UNKNOWN) q
    end in
  with_isLoading false q1.

(** [processQuestion] after its [await]: call [id] settles with [o]. *)
Definition settle (id : nat) (o : outcome) (st : Home) : Home :=
  if bool_decide (id ∈ pending st) then
    match calls st !! id with
    | Some c =>
        settled id (setQuestions (alter (finish o) (call_index c) (questions st)) st)
    | None => st
    end
  else st.

(** ** Run all *)

Definition has_question (index : nat) (st : Home) : bool :=
  match questions st !! index with
  | Some q => truthy (trim (question q))
  | None => false
  end.

(** The callback of [questions.map], index after index. *)
Fixpoint submit_each (indices : list nat) (st : Home) : Home * list promise :=
  match indices with
  | [] => (st, [])
  | index :: rest =>
      let '(st1, p) :=
        if has_question index st then processQuestion index st else (st, Fulfilled) in
      let '(st2, ps) := submit_each rest st1 in
      (st2, p :: ps)
  end.

(** [handleSubmitAll], up to its [await]: the new state and the promises
    given to [Promise.all] (none when the handler returns early). *)
Definition handleSubmitAll (st : Home) : Home * list promise :=
  if negb (truthy (trim (selectedApiKey st))) then (alert ALERT_KEY st, [])
  else
    let validQuestions := filter (λ q, truthy (trim (question q)) = true) (questions st) in
    if Nat.eqb (length validQuestions) 0 then (alert ALERT_QUESTION st, [])
    else submit_each (seq 0 (length (questions st))) st.

Definition is_pending (st : Home) (p : promise) : bool :=
  match p with
  | Awaits id => bool_decide (id ∈ pending st)
  | Fulfilled | Rejected => false
  end.

(** [await Promise.all(promises)] is over: no promise is still waiting. *)
Definition all_resolved (st : Home) (ps : list promise) : bool :=
  forallb (λ p, negb (is_pending st p)) ps.

(** ** What can happen to the page *)

Inductive event : Type :=
| TypeNewApiKey (raw : string)
| ClickAdd
| ClickDelete
| Select (key : string)
| OpenAddForm
| CancelAddForm
| TypeQuestion (index : nat) (text : string)
| ClickRun (index : nat)
| Submit
| Settle (id : nat) (o : outcome).

Definition step (st : Home) (e : event) : Home :=
  match e with
  | TypeNewApiKey raw => setNewApiKey raw st
  | ClickAdd => handleAddApiKey st
  | ClickDelete => handleDeleteApiKey (selectedApiKey st) st
  | Select key => setSelectedApiKey key st
  | OpenAddForm => setShowAddForm true st
  | CancelAddForm => setNewApiKey "" (setShowAddForm false st)
  | TypeQuestion index text => updateQuestion index text st
  | ClickRun index => fst (processQuestion index st)
  | Submit => fst (handleSubmitAll st)
  | Settle id o => settle id o st
  end.

(** What the page lets happen at most: a control that is not rendered or
    is disabled cannot be used, and only a call in flight can settle.  The
    conditions are read from the state itself; the page shows the controls
    of its last render, which can only be more restrictive. *)
Definition enabled (st : Home) (e : event) : bool :=
  match e with
  | TypeNewApiKey _ | ClickAdd | CancelAddForm => showAddForm st
  | OpenAddForm => negb (showAddForm st)
  | ClickDelete => negb (Nat.eqb (length (apiKeys st)) 0) && truthy (selectedApiKey st)
  | Select key =>
      negb (Nat.eqb (length (apiKeys st)) 0)
      && (negb (truthy key) || bool_decide (key ∈ apiKeys st))
  | TypeQuestion index _ => bool_decide (index < length (questions st))
  | ClickRun index =>
      match questions st !! index with
      | Some q => truthy (trim (question q)) && negb (isLoading q)
      | None => false
      end
  | Submit => negb (existsb isLoading (questions st))
  | Settle id _ => bool_decide (id ∈ pending st)
  end.

(** A session: the events one after the other; [None] when the page does
    not allow one of them. *)
Fixpoint session (es : list event) (st : Home) : option Home :=
  match es with
  | [] => Some st
  | e :: rest => if enabled st e then session rest (step st e) else None
  end.

(** The events one after the other, allowed or not. *)
Definition run (es : list event) (st : Home) : Home := fold_left step es st.

(** ** Reference definitions for the API-key list *)

(** [addCredential] for each raw input in turn. *)
Definition addAll (raws : list string) (st : Home) : Home :=
  fold_left (λ st raw, addCredential raw st) raws st.

(** The first occurrence of every value of [keys] that is not in [seen],
    in the order of [keys]. *)
Fixpoint first_occurrences (seen keys : list string) : list string :=
  match keys with
  | [] => []
  | k :: rest =>
      if bool_decide (k ∈ seen) then first_occurrences seen rest
      else k :: first_occurrences (seen ++ [k])%list rest
  end.

(** The values that [handleAddApiKey] is asked to insert: the trimmed
    inputs that are not empty. *)
Definition candidates (raws : list string) : list string :=
  filter (λ k, truthy k = true) (trim <$> raws).

(** Does call [id] settle in the course of [es]? *)
Definition settles (id : nat) (es : list event) : bool :=
  existsb (λ e, match e with Settle id' _ => Nat.eqb id' id | _ => false end) es.


(** The states a session can reach from the first page. *)
Inductive reachable : Home → Prop :=
| reachable_initial : reachable initial
| reachable_step (st : Home) (e : event) :
    reachable st → enabled st e = true → reachable (step st e).

(** Every awaited call shows in the slot it was made for. *)
Definition in_flight_shown (st : Home) : Prop :=
  ∀ id, id ∈ pending st →
    ∃ c q, calls st !! id = Some c ∧ questions st !! call_index c = Some q
           ∧ isLoading q = true.

(** No slot has two awaited calls. *)
Definition one_call_per_slot (st : Home) : Prop :=
  ∀ id id' c c', id ∈ pending st → id' ∈ pending st →
    calls st !! id = Some c → calls st !! id' = Some c' →
    call_index c = call_index c' → id = id'.

Definition flights (st : Home) : Prop :=
  in_flight_shown st ∧ one_call_per_slot st.

(** The keys are trimmed and not empty, and the selection is one of them
    or empty. *)
Definition keys_trimmed (st : Home) : Prop :=
  (∀ k, k ∈ apiKeys st → trim k = k ∧ k ≠ "")
  ∧ (selectedApiKey st = "" ∨ selectedApiKey st ∈ apiKeys st).

Definition consistent (st : Home) : Prop :=
  flights st ∧ keys_trimmed st.

(** Does the text begin with a white-space character? *)
Definition lead_ws (s : string) : bool :=
  match s with
  | String c1 r1 =>
      ws1 c1
      || match r1 with
         | String c2 r2 =>
             ws2 c1 c2
             || match r2 with
                | String c3 _ => ws3 c1 c2 c3
                | EmptyString => false
                end
         | EmptyString => false
         end
  | EmptyString => false
  end.

(** Does the reversed text begin with a reversed white-space character? *)
Definition lead_ws_rev (s : string) : bool :=
  match s with
  | String c1 r1 =>
      ws1 c1
      || match r1 with
         | String c2 r2 =>
             ws2 c2 c1
             || match r2 with
                | String c3 _ => ws3 c3 c2 c1
                | EmptyString => false
                end
         | EmptyString => false
         end
  | EmptyString => false
  end.

(** No call made for slot [i] is awaited. *)
Definition idle (i : nat) (st : Home) : Prop :=
  ∀ id c, id ∈ pending st → calls st !! id = Some c → call_index c ≠ i.

(** *** The answers used below *)

Definition nl : string := String "010" "".

Definition harry_potter : BookInfo :=
  {| title := "Harry Potter"; author := "J.K. Rowling"; publisher := "";
     publicationYear := ""; genre := ""; language := "" |}.

(** The six-key object on one line, as the model writes it. *)
Definition harry_potter_text : string :=
  "{" ++ quoted "title" ++ ":" ++ quoted "Harry Potter" ++ ","
      ++ quoted "author" ++ ":" ++ quoted "J.K. Rowling" ++ ","
      ++ quoted "publisher" ++ ":" ++ quoted "" ++ ","
      ++ quoted "publicationYear" ++ ":" ++ quoted "" ++ ","
      ++ quoted "genre" ++ ":" ++ quoted "" ++ ","
      ++ quoted "language" ++ ":" ++ quoted "" ++ "}".

(** The same answer inside a fence tagged [json]. *)
Definition harry_potter_answer : string :=
  "```json" ++ nl ++ harry_potter_text ++ nl ++ "```".

Fixpoint member (k : string) (ms : list (string * json)) : option json :=
  match ms with
  | [] => None
  | (k', v) :: rest => if String.eqb k k' then Some v else member k rest
  end.

(** What the annotation [BookInfo] promises and nothing checks: an object
    with the six keys and no other, each holding a string. *)
Definition BookInfo_shape (v : json) : bool :=
  match v with
  | JObject ms =>
      Nat.eqb (length ms) 6
      && forallb (λ k, match member k ms with Some (JString _) => true | _ => false end)
           ["title"; "author"; "publisher"; "publicationYear"; "genre"; "language"]
  | _ => false
  end.

(** The wording of one engine for every [SyntaxError]. *)
Definition engine_message (s : string) : string := "Unexpected token".

(** The board of C4: the key ["k1"] and the five questions. *)
Definition two_queries : Home :=
  setSelectedApiKey "k1"
    (setQuestions [blank "query A"; blank ""; blank "query B"; blank ""; blank ""] initial).

(** The first page with the key ["k1"] selected. *)
Definition with_key : Home := setSelectedApiKey "k1" initial.

(** Three keys, the first one selected. *)
Definition three_keys : Home :=
  setApiKeys ["a"; "b"; "c"] (setSelectedApiKey "a" initial).

(** An answer without the tag on its opening fence. *)
Definition untagged_answer : string := "```" ++ nl ++ "{}" ++ nl ++ "```".


(** A session in which a key is added, slot 0 is run and answered, the key
    is deleted and slot 0 is run again. *)
Definition rerun_without_key : list event :=
  [OpenAddForm; TypeNewApiKey "k1"; ClickAdd; ClickRun 0;
   Settle 0 (Responded harry_potter_answer); ClickDelete; ClickRun 0].

(** ** The prompt *)

Fixpoint lines (ls : list string) : string :=
  match ls with
  | [] => ""
  | [l] => l
  | l :: rest => l ++ nl ++ lines rest
  end.

Definition PLACEHOLDER : string := "{user_prompt}".

(** [PROMPT_TEMPLATE] up to the placeholder. *)
Definition PROMPT_HEAD : string :=
  lines
    [""; "# [Instruction]";
     "You are an expert AI that analyzes a user's query to extract factual information about a book. Your single task is to populate a JSON object with the data found directly in the user's text.";
     ""; "# [Input Data]"; "- user_prompt: "].

(** [PROMPT_TEMPLATE] after the placeholder. *)
Definition PROMPT_TAIL : string :=
  lines
    [""; ""; "---"; "# [Extraction Rules]";
     "1.  Carefully read the `user_prompt`.";
     "2.  Identify and extract only the following 6 pieces of information if they are explicitly mentioned:";
     "    * `title`: The title of the book.";
     "    * `author`: The author's name.";
     "    * `publisher`: The publisher's name.";
     "    * `publicationYear`: The year the book was published.";
     "    * `genre`: The genre of the book.";
     "    * `language`: The language of the book.";
     "3.  If a specific piece of information cannot be found in the prompt, you MUST leave its value as an empty string `" ++ quoted "" ++ "`.";
     "4.  Do not infer, guess, or add any information that is not explicitly stated in the `user_prompt`.";
     ""; "# [Output JSON Format]";
     "Respond with ONLY the following JSON object. Do not include any other text, explanations, or markdown formatting.";
     "{{";
     "  " ++ quoted "title" ++ ": " ++ quoted "" ++ ",";
     "  " ++ quoted "author" ++ ": " ++ quoted "" ++ ",";
     "  " ++ quoted "publisher" ++ ": " ++ quoted "" ++ ",";
     "  " ++ quoted "publicationYear" ++ ": " ++ quoted "" ++ ",";
     "  " ++ quoted "genre" ++ ": " ++ quoted "" ++ ",";
     "  " ++ quoted "language" ++ ": " ++ quoted "";
     "}}"; ""].

Definition PROMPT_TEMPLATE : string := PROMPT_HEAD ++ PLACEHOLDER ++ PROMPT_TAIL.

(** The first occurrence of [p] in [s]: the text before it and the text
    after it. *)
Fixpoint split_first (p s : string) : option (string * string) :=
  if startsWith p s then Some ("", drop (String.length p) s)
  else
    match s with
    | EmptyString => None
    | String c r =>
        match split_first p r with
        | Some (before, after) => Some (String c before, after)
        | None => None
        end
    end.

(** The replacement text of [String.prototype.replace] for a pattern that
    is a string (no capture groups): [$$] is a dollar sign, [$&] the
    matched text, [$`] the text before the match, [$'] the text after it;
    any other dollar sign stands for itself. *)
Fixpoint substitution (matched before after template : string) : string :=
  match template with
  | EmptyString => ""
  | String c r =>
      if Ascii.eqb c "$" then
        match r with
        | String d r' =>
            if Ascii.eqb d "$" then String "$" (substitution matched before after r')
            else if Ascii.eqb d "&" then matched ++ substitution matched before after r'
            else if Ascii.eqb d "`" then before ++ substitution matched before after r'
            else if Ascii.eqb d "'" then after ++ substitution matched before after r'
            else String "$" (substitution matched before after r)
        | EmptyString => "$"
        end
      else String c (substitution matched before after r)
  end.

(** [s.replace(pattern, replacement)] for a string pattern: the first
    occurrence only. *)
Definition replace (s pattern replacement : string) : string :=
  match split_first pattern s with
  | Some (before, after) =>
      before ++ substitution pattern before after replacement ++ after
  | None => s
  end.

(** [PROMPT_TEMPLATE.replace("{user_prompt}", question)] *)
Definition finalPrompt (question : string) : string :=
  replace PROMPT_TEMPLATE PLACEHOLDER question.

Fixpoint has_dollar (s : string) : bool :=
  match s with
  | EmptyString => false
  | String c r => Ascii.eqb c "$" || has_dollar r
  end.

(** ** Reference definitions for the fences *)

(** [s.slice(0, n)] *)
Fixpoint take (n : nat) (s : string) : string :=
  match n, s with
  | O, _ => ""
  | S _, EmptyString => ""
  | S n', String c r => String c (take n' r)
  end.

(** [s.endsWith(p)]: the last characters of [s] are compared with [p]. *)
Definition endsWith (p s : string) : bool :=
  Nat.leb (String.length p) (String.length s)
  && String.eqb (drop (String.length s - String.length p) s) p.

(** Fence removal said without a pattern: an opening [```json] is cut off
    when the text begins with it, then a closing fence when what is left
    ends with it. *)
Definition unfence (s : string) : string :=
  let s1 := if startsWith "```json" s then drop 7 s else s in
  if endsWith "```" s1 then take (String.length s1 - 3) s1 else s1.

(** ** Reference definitions for run all *)

(** The call that [processQuestion index] makes on [st]. *)
Definition call_for (st : Home) (index : nat) : Call :=
  {| call_index := index; call_apiKey := selectedApiKey st;
     call_question := match questions st !! index with
                      | Some q => question q
                      | None => ""
                      end |}.

(** The promises of a fan-out: a slot that is run awaits the next call,
    a slot that is skipped is fulfilled at once. *)
Fixpoint promises_from (next : nat) (runs : list bool) : list promise :=
  match runs with
  | [] => []
  | true :: rest => Awaits next :: promises_from (S next) rest
  | false :: rest => Fulfilled :: promises_from next rest
  end.

(** ** What a page keeps besides [consistent] *)

(** A slot that is loading shows neither result nor error, and a slot that
    shows both shows the message of the check. *)
Definition slot_ok (q : QuestionResult) : Prop :=
  (isLoading q = true → result q = None ∧ error q = None)
  ∧ (is_Some (result q) → is_Some (error q) → error q = Some MSG_REQUIRED).

(** A slot that is loading has an awaited call. *)
Definition loading_has_call (st : Home) : Prop :=
  ∀ i q, questions st !! i = Some q → isLoading q = true →
    ∃ id c, id ∈ pending st ∧ calls st !! id = Some c ∧ call_index c = i.

Definition orderly (st : Home) : Prop :=
  length (questions st) = 5
  ∧ NoDup (apiKeys st)
  ∧ NoDup (pending st)
  ∧ loading_has_call st
  ∧ Forall slot_ok (questions st).

(** A call made with a key and a question that are not blank, for one of
    the five slots. *)
Definition proper_call (c : Call) : Prop :=
  trim (call_apiKey c) ≠ "" ∧ trim (call_question c) ≠ "" ∧ call_index c < 5.

(** ** Sessions used as instances *)

(** A key is added and slot 0 is run: its call is awaited. *)
Definition to_busy : list event :=
  [OpenAddForm; TypeNewApiKey " k1 "; ClickAdd; ClickRun 0].

(** Then the key is deleted and the question of slot 0 is edited, and the
    call settles. *)
Definition busy_then_settled : list event :=
  [ClickDelete; TypeQuestion 0 "Dune"; Settle 0 (Responded harry_potter_answer)].

(** A board with the second and the fourth question filled in. *)
Definition two_of_five : Home :=
  setSelectedApiKey "k1"
    (setQuestions [blank " "; blank "Dune"; blank ""; blank "Emma"; blank ""] initial).

(** A page with one key and the key ["k2"] typed into the form. *)
Definition typing_k2 : Home :=
  setNewApiKey " k2 " (setShowAddForm true (setApiKeys ["k1"] (setSelectedApiKey "k1" initial))).

(** * Properties *)

(** ** The definitions at work *)

Example trim_spaces : trim "  k1 " = "k1".
Proof. reflexivity. Qed.

Example trim_line_ends : trim (nl ++ String "009" " ") = "".
Proof. reflexivity. Qed.

Example trim_no_break_space :
  trim (String "194" (String "160" (" a b " ++ String "226" (String "128" (String "168" "")))))
  = "a b".
Proof. reflexivity. Qed.

Example trim_keeps_inner_space : trim " 한 글 " = "한 글".
Proof. reflexivity. Qed.

Example parse_nested :
  parse ("{" ++ quoted "a" ++ ": [1, -2.5e3, true, null, " ++ quoted "x\ty" ++ "] }")
  = Some (JObject [("a", JArray [JNumber "1"; JNumber "-2.5e3"; JBool true; JNull;
                                 JString (String "x" (String "009" "y"))])]).
Proof. reflexivity. Qed.

Example parse_escapes :
  parse (quoted "\u00e9\ud83d\ude00\n") = Some (JString ("é😀" ++ nl)).
Proof. reflexivity. Qed.

Example parse_repeated_key :
  parse ("{" ++ quoted "a" ++ ":1," ++ quoted "b" ++ ":2," ++ quoted "a" ++ ":3}")
  = Some (JObject [("a", JNumber "3"); ("b", JNumber "2")]).
Proof. reflexivity. Qed.

Example parse_rejects :
  Forall (λ s, parse s = None)
    [""; "[1,]"; "01"; "{} x"; "-"; "1."; ".5"; "+1"; "tru"; "[1 2]"; "{,}"; "[";
     quoted ("a" ++ nl ++ "b"); quoted "\x"; "```"].
Proof. repeat constructor. Qed.

Example clean_tagged : cleanJsonStr "  ```json {} ```  " = "{}".
Proof. reflexivity. Qed.

Example clean_other_tag : cleanJsonStr "```JSON {} ```" = "```JSON {}".
Proof. reflexivity. Qed.

Example clean_four_backticks : cleanJsonStr "````" = "`".
Proof. reflexivity. Qed.

Example submit_two_queries :
  handleSubmitAll two_queries
  = ({| apiKeys := []; selectedApiKey := "k1"; newApiKey := ""; showAddForm := false;
        questions := [with_isLoading true (blank "query A"); blank "";
                      with_isLoading true (blank "query B"); blank ""; blank ""];
        calls := [ {| call_index := 0; call_apiKey := "k1"; call_question := "query A" |};
                   {| call_index := 2; call_apiKey := "k1"; call_question := "query B" |} ];
        pending := [0; 1]; alerts := [] |},
     [Awaits 0; Fulfilled; Awaits 1; Fulfilled; Fulfilled]).
Proof. reflexivity. Qed.

Example submit_without_key :
  handleSubmitAll initial = (alert ALERT_KEY initial, []).
Proof. reflexivity. Qed.

Example run_outside_the_array : processQuestion 5 with_key = (with_key, Rejected).
Proof. reflexivity. Qed.

(** ** The parser never runs out of fuel *)

Lemma skip_ws_length (s : string) : (String.length (skip_ws s) ≤ String.length s)%nat.
Proof.
  induction s as [| c s IH]; simpl; [done |]. destruct (json_ws c); simpl; lia.
Qed.

Lemma drop_length (n : nat) (s : string) :
  (String.length (drop n s) ≤ String.length s)%nat.
Proof.
  revert s. induction n as [| n IH]; intros [| c s]; simpl; try lia.
  specialize (IH s). lia.
Qed.

Lemma startsWith_drop (p s : string) :
  startsWith p s = true →
  String.length (drop (String.length p) s) + String.length p = String.length s.
Proof.
  revert s. induction p as [| a p IH]; intros s H; simpl in *; [lia |].
  destruct s as [| b s]; [done |]. destruct (Ascii.eqb a b); [| done].
  simpl. specialize (IH s H). lia.
Qed.

Lemma startsWith_drop1 (p : ascii) (s : string) :
  startsWith (String p "") s = true → (String.length (drop 1 s) < String.length s)%nat.
Proof.
  intros H%startsWith_drop.
  change (String.length (drop 1 s) + 1 = String.length s) in H. lia.
Qed.

Lemma scan_string_length_below (n : nat) :
  ∀ s its r, (String.length s < n)%nat → scan_string s = Some (its, r) →
             (String.length r < String.length s)%nat.
Proof.
  induction n as [| n IH]; intros s its r Hn H; [lia |].
  destruct s as [| c s]; [done |]. simpl in H, Hn.
  destruct (Ascii.eqb c dquote); [simplify_eq; simpl; lia |].
  destruct (Ascii.eqb c "\").
  - destruct s as [| e s1]; [done |]. simpl in Hn.
    destruct (simple_escape e).
    + destruct (scan_string s1) as [[its' r'] |] eqn:E; [| done].
      apply IH in E; [| lia]. simplify_eq. simpl. lia.
    + destruct (Ascii.eqb e "u"); [| done].
      destruct s1 as [| h1 [| h2 [| h3 [| h4 s2]]]]; try done. simpl in Hn.
      destruct (hex4 h1 h2 h3 h4); [| done].
      destruct (scan_string s2) as [[its' r'] |] eqn:E; [| done].
      apply IH in E; [| lia]. simplify_eq. simpl. lia.
  - destruct (N_of_ascii c <? 32)%N; [done |].
    destruct (scan_string s) as [[its' r'] |] eqn:E; [| done].
    apply IH in E; [| lia]. simplify_eq. simpl. lia.
Qed.

Lemma scan_string_length (s : string) (its : list item) (r : string) :
  scan_string s = Some (its, r) → (String.length r < String.length s)%nat.
Proof. apply (scan_string_length_below (S (String.length s))). lia. Qed.

Lemma digits_length (s : string) :
  ∀ ds r, digits s = (ds, r) → String.length r + String.length ds = String.length s.
Proof.
  induction s as [| c s IH]; intros ds r H; simpl in H; [by simplify_eq |].
  destruct (is_digit c); [| by simplify_eq].
  destruct (digits s) as [ds' r']. specialize (IH _ _ eq_refl).
  simplify_eq. simpl. lia.
Qed.

Lemma truthy_length (s : string) : truthy s = true → (0 < String.length s)%nat.
Proof. destruct s; simpl; [done | lia]. Qed.

Lemma scan_int_length (s ip r : string) :
  scan_int s = Some (ip, r) → (String.length r < String.length s)%nat.
Proof.
  unfold scan_int. destruct (startsWith "0" s) eqn:E.
  - intros ?. simplify_eq. by apply (startsWith_drop1 "0").
  - destruct (digits s) as [ds r'] eqn:Ed. apply digits_length in Ed.
    destruct (truthy ds) eqn:Et; [| done]. apply truthy_length in Et.
    intros ?. simplify_eq. lia.
Qed.

Lemma scan_frac_length (s fp r : string) :
  scan_frac s = Some (fp, r) → (String.length r ≤ String.length s)%nat.
Proof.
  unfold scan_frac. destruct (startsWith "." s); [| intros ?; by simplify_eq].
  destruct (digits (drop 1 s)) as [ds r'] eqn:Ed. apply digits_length in Ed.
  pose proof (drop_length 1 s). destruct (truthy ds); [| done].
  intros ?. simplify_eq. lia.
Qed.

Lemma scan_exp_length (s ep r : string) :
  scan_exp s = Some (ep, r) → (String.length r ≤ String.length s)%nat.
Proof.
  unfold scan_exp.
  destruct (truthy (if startsWith "e" s then "e" else if startsWith "E" s then "E" else ""));
    [| intros ?; by simplify_eq].
  set (sg := if startsWith "+" (drop 1 s) then "+"
             else if startsWith "-" (drop 1 s) then "-" else "").
  destruct (digits (drop (String.length sg) (drop 1 s))) as [ds r'] eqn:Ed.
  apply digits_length in Ed.
  pose proof (drop_length (String.length sg) (drop 1 s)). pose proof (drop_length 1 s).
  destruct (truthy ds); [| done]. intros ?. simplify_eq. lia.
Qed.

Lemma scan_number_length (s lx r : string) :
  scan_number s = Some (lx, r) → (String.length r < String.length s)%nat.
Proof.
  unfold scan_number.
  set (sign := if startsWith "-" s then "-" else "").
  pose proof (drop_length (String.length sign) s).
  destruct (scan_int _) as [[ip s2] |] eqn:E1; [| done]. apply scan_int_length in E1.
  destruct (scan_frac s2) as [[fp s3] |] eqn:E2; [| done]. apply scan_frac_length in E2.
  destruct (scan_exp s3) as [[ep s4] |] eqn:E3; [| done]. apply scan_exp_length in E3.
  intros ?. simplify_eq. lia.
Qed.

Lemma parse_value_S (n : nat) (s : string) :
  parse_value (S n) s =
    let s := skip_ws s in
    if startsWith "{" s then
      let r := skip_ws (drop 1 s) in
      if startsWith "}" r then Parsed (JObject []) (drop 1 r)
      else parse_members n r []
    else if startsWith "[" s then
      let r := skip_ws (drop 1 s) in
      if startsWith "]" r then Parsed (JArray []) (drop 1 r)
      else parse_elements n r []
    else if startsWith (String dquote "") s then
      match scan_string (drop 1 s) with
      | Some (its, rest) => Parsed (JString (decode its)) rest
      | None => Malformed
      end
    else if startsWith "true" s then Parsed (JBool true) (drop 4 s)
    else if startsWith "false" s then Parsed (JBool false) (drop 5 s)
    else if startsWith "null" s then Parsed JNull (drop 4 s)
    else
      match scan_number s with
      | Some (lx, rest) => Parsed (JNumber lx) rest
      | None => Malformed
      end.
Proof. reflexivity. Qed.

Lemma parse_elements_S (n : nat) (s : string) (acc : list json) :
  parse_elements (S n) s acc =
    match parse_value n s with
    | Parsed v r =>
        let r := skip_ws r in
        if startsWith "," r then parse_elements n (drop 1 r) (acc ++ [v])%list
        else if startsWith "]" r then Parsed (JArray (acc ++ [v])%list) (drop 1 r)
        else Malformed
    | other => other
    end.
Proof. reflexivity. Qed.

Lemma parse_members_S (n : nat) (s : string) (acc : list (string * json)) :
  parse_members (S n) s acc =
    let s := skip_ws s in
    if startsWith (String dquote "") s then
      match scan_string (drop 1 s) with
      | Some (its, r1) =>
          let r1 := skip_ws r1 in
          if startsWith ":" r1 then
            match parse_value n (drop 1 r1) with
            | Parsed v r3 =>
                let r3 := skip_ws r3 in
                if startsWith "," r3
                then parse_members n (drop 1 r3) (obj_set (decode its) v acc)
                else if startsWith "}" r3
                then Parsed (JObject (obj_set (decode its) v acc)) (drop 1 r3)
                else Malformed
            | other => other
            end
          else Malformed
      | None => Malformed
      end
    else Malformed.
Proof. reflexivity. Qed.

Lemma startsWith_dropn (p s : string) (n : nat) :
  startsWith p s = true → n = String.length p →
  String.length (drop n s) + n = String.length s.
Proof. intros H ->. by apply startsWith_drop. Qed.

#[local] Opaque drop.

(** A value, an element list or a member list that parses has consumed at
    least one character. *)
Lemma parse_consumes (n : nat) :
  (∀ s v r, parse_value n s = Parsed v r → (String.length r < String.length s)%nat)
  ∧ (∀ s acc v r, parse_elements n s acc = Parsed v r →
       (String.length r < String.length s)%nat)
  ∧ (∀ s acc v r, parse_members n s acc = Parsed v r →
       (String.length r < String.length s)%nat).
Proof.
  induction n as [| n (IHv & IHe & IHm)]; [split_and!; intros; discriminate |].
  split_and!.
  - intros s v r. rewrite parse_value_S. cbv zeta.
    pose proof (skip_ws_length s) as Hs.
    pose proof (skip_ws_length (drop 1 (skip_ws s))) as Hs1.
    destruct (startsWith "{" (skip_ws s)) eqn:E1.
    { apply (startsWith_dropn _ _ 1) in E1; [| done].
      destruct (startsWith "}" _) eqn:E2.
      - apply (startsWith_dropn _ _ 1) in E2; [| done]. intros ?. simplify_eq. lia.
      - intros H%IHm. lia. }
    destruct (startsWith "[" (skip_ws s)) eqn:E2.
    { apply (startsWith_dropn _ _ 1) in E2; [| done].
      destruct (startsWith "]" _) eqn:E3.
      - apply (startsWith_dropn _ _ 1) in E3; [| done]. intros ?. simplify_eq. lia.
      - intros H%IHe. lia. }
    destruct (startsWith (String dquote "") (skip_ws s)) eqn:E3.
    { apply (startsWith_dropn _ _ 1) in E3; [| done].
      destruct (scan_string _) as [[its rest] |] eqn:E4; [| done].
      apply scan_string_length in E4. intros ?. simplify_eq. lia. }
    destruct (startsWith "true" (skip_ws s)) eqn:E4.
    { apply (startsWith_dropn _ _ 4) in E4; [| done]. intros ?. simplify_eq. lia. }
    destruct (startsWith "false" (skip_ws s)) eqn:E5.
    { apply (startsWith_dropn _ _ 5) in E5; [| done]. intros ?. simplify_eq. lia. }
    destruct (startsWith "null" (skip_ws s)) eqn:E6.
    { apply (startsWith_dropn _ _ 4) in E6; [| done]. intros ?. simplify_eq. lia. }
    destruct (scan_number _) as [[lx rest] |] eqn:E7; [| done].
    apply scan_number_length in E7. intros ?. simplify_eq. lia.
  - intros s acc v r. rewrite parse_elements_S.
    destruct (parse_value n s) as [v1 r1 | |] eqn:E; [| done | done].
    apply IHv in E. cbv zeta. pose proof (skip_ws_length r1) as Hs.
    destruct (startsWith "," (skip_ws r1)) eqn:E1.
    { apply (startsWith_dropn _ _ 1) in E1; [| done]. intros H%IHe. lia. }
    destruct (startsWith "]" (skip_ws r1)) eqn:E2; [| done].
    apply (startsWith_dropn _ _ 1) in E2; [| done]. intros ?. simplify_eq. lia.
  - intros s acc v r. rewrite parse_members_S. cbv zeta.
    pose proof (skip_ws_length s) as Hs.
    destruct (startsWith (String dquote "") (skip_ws s)) eqn:E1; [| done].
    apply (startsWith_dropn _ _ 1) in E1; [| done].
    destruct (scan_string _) as [[its r1] |] eqn:E2; [| done].
    apply scan_string_length in E2. pose proof (skip_ws_length r1) as Hs1.
    destruct (startsWith ":" (skip_ws r1)) eqn:E3; [| done].
    apply (startsWith_dropn _ _ 1) in E3; [| done].
    destruct (parse_value n _) as [v3 r3 | |] eqn:E4; [| done | done].
    apply IHv in E4. pose proof (skip_ws_length r3) as Hs3.
    destruct (startsWith "," (skip_ws r3)) eqn:E5.
    { apply (startsWith_dropn _ _ 1) in E5; [| done]. intros H%IHm. lia. }
    destruct (startsWith "}" (skip_ws r3)) eqn:E6; [| done].
    apply (startsWith_dropn _ _ 1) in E6; [| done]. intros ?. simplify_eq. lia.
Qed.

(** Two units of fuel for each character are enough. *)
Lemma parse_fuel (n : nat) :
  (∀ s, (2 * String.length s < n)%nat → parse_value n s ≠ OutOfFuel)
  ∧ (∀ s acc, (2 * String.length s + 1 < n)%nat → parse_elements n s acc ≠ OutOfFuel)
  ∧ (∀ s acc, (2 * String.length s + 1 < n)%nat → parse_members n s acc ≠ OutOfFuel).
Proof.
  induction n as [| n (IHv & IHe & IHm)]; [split_and!; intros; lia |].
  destruct (parse_consumes n) as (Cv & _ & _).
  split_and!.
  - intros s Hn. rewrite parse_value_S. cbv zeta.
    pose proof (skip_ws_length s) as Hs.
    pose proof (skip_ws_length (drop 1 (skip_ws s))) as Hs1.
    destruct (startsWith "{" (skip_ws s)) eqn:E1.
    { apply (startsWith_dropn _ _ 1) in E1; [| done].
      destruct (startsWith "}" _); [done |]. apply IHm. lia. }
    destruct (startsWith "[" (skip_ws s)) eqn:E2.
    { apply (startsWith_dropn _ _ 1) in E2; [| done].
      destruct (startsWith "]" _); [done |]. apply IHe. lia. }
    repeat case_match; done.
  - intros s acc Hn. rewrite parse_elements_S.
    destruct (parse_value n s) as [v1 r1 | |] eqn:E; [| done |].
    + apply Cv in E. cbv zeta. pose proof (skip_ws_length r1) as Hs.
      destruct (startsWith "," (skip_ws r1)) eqn:E1.
      { apply (startsWith_dropn _ _ 1) in E1; [| done]. apply IHe. lia. }
      by destruct (startsWith "]" _).
    + exfalso. revert E. apply IHv. lia.
  - intros s acc Hn. rewrite parse_members_S. cbv zeta.
    pose proof (skip_ws_length s) as Hs.
    destruct (startsWith (String dquote "") (skip_ws s)) eqn:E1; [| done].
    apply (startsWith_dropn _ _ 1) in E1; [| done].
    destruct (scan_string _) as [[its r1] |] eqn:E2; [| done].
    apply scan_string_length in E2. pose proof (skip_ws_length r1) as Hs1.
    destruct (startsWith ":" (skip_ws r1)) eqn:E3; [| done].
    apply (startsWith_dropn _ _ 1) in E3; [| done].
    destruct (parse_value n _) as [v3 r3 | |] eqn:E4; [| done |].
    + apply Cv in E4. pose proof (skip_ws_length r3) as Hs3.
      destruct (startsWith "," (skip_ws r3)) eqn:E5.
      { apply (startsWith_dropn _ _ 1) in E5; [| done]. apply IHm. lia. }
      by destruct (startsWith "}" _).
    + exfalso. revert E4. apply IHv. lia.
Qed.

(** [parse] answers for every text: the fuel it takes is never used up, so
    [None] always stands for a text that is not JSON. *)
Lemma parse_never_out_of_fuel (s : string) : parse_value (fuel_for s) s ≠ OutOfFuel.
Proof. apply parse_fuel. unfold fuel_for. lia. Qed.

#[local] Transparent drop.

(** ** Trimming *)

Lemma append_assoc (a b c : string) : (a ++ b) ++ c = a ++ (b ++ c).
Proof.
  induction a as [| x a IH]; [done |].
  change (String x ((a ++ b) ++ c) = String x (a ++ (b ++ c))). by rewrite IH.
Qed.

Lemma length_append (a b : string) :
  String.length (a ++ b) = String.length a + String.length b.
Proof.
  induction a as [| x a IH]; [done |].
  change (S (String.length (a ++ b)) = S (String.length a + String.length b)).
  by rewrite IH.
Qed.

Lemma rev_onto_append (s acc : string) : rev_onto s acc = reverse s ++ acc.
Proof.
  unfold reverse. revert acc. induction s as [| c s IH]; intros acc; simpl; [done |].
  rewrite (IH (String c acc)), (IH (String c "")), append_assoc. done.
Qed.

Lemma rev_onto_app (a b acc : string) :
  rev_onto (a ++ b) acc = rev_onto b (rev_onto a acc).
Proof.
  revert acc. induction a as [| c a IH]; intros acc; [done |].
  change (rev_onto (a ++ b) (String c acc) = rev_onto b (rev_onto a (String c acc))).
  apply IH.
Qed.

Lemma reverse_append (a b : string) : reverse (a ++ b) = reverse b ++ reverse a.
Proof. unfold reverse at 1. by rewrite rev_onto_app, rev_onto_append. Qed.

Lemma reverse_involutive (s : string) : reverse (reverse s) = s.
Proof.
  induction s as [| c s IH]; [done |].
  unfold reverse at 2. simpl. rewrite rev_onto_append, reverse_append, IH. done.
Qed.

(** [trimStart] returns a suffix of its argument that does not begin with
    white space. *)
Lemma trimStart_spec_below (n : nat) :
  ∀ s, (String.length s < n)%nat →
       lead_ws (trimStart s) = false ∧ ∃ w, s = w ++ trimStart s.
Proof.
  induction n as [| n IH]; intros s Hn; [lia |].
  destruct s as [| c1 r1]; [by (split; [| exists ""]) |]. simpl in Hn.
  change (trimStart (String c1 r1))
    with (if ws1 c1 then trimStart r1 else
          match r1 with
          | String c2 r2 =>
              if ws2 c1 c2 then trimStart r2 else
              match r2 with
              | String c3 r3 =>
                  if ws3 c1 c2 c3 then trimStart r3 else String c1 r1
              | EmptyString => String c1 r1
              end
          | EmptyString => String c1 r1
          end).
  destruct (ws1 c1) eqn:E1.
  { destruct (IH r1) as [H (w & Hw)]; [lia |]. split; [done |].
    exists (String c1 w). by rewrite Hw at 1. }
  destruct r1 as [| c2 r2].
  { split; [simpl; by rewrite E1 | by exists ""]. }
  simpl in Hn. destruct (ws2 c1 c2) eqn:E2.
  { destruct (IH r2) as [H (w & Hw)]; [lia |]. split; [done |].
    exists (String c1 (String c2 w)). by rewrite Hw at 1. }
  destruct r2 as [| c3 r3].
  { split; [simpl; by rewrite E1, E2 | by exists ""]. }
  simpl in Hn. destruct (ws3 c1 c2 c3) eqn:E3.
  { destruct (IH r3) as [H (w & Hw)]; [lia |]. split; [done |].
    exists (String c1 (String c2 (String c3 w))). by rewrite Hw at 1. }
  split; [simpl; by rewrite E1, E2, E3 | by exists ""].
Qed.

Lemma trimStart_spec (s : string) :
  lead_ws (trimStart s) = false ∧ ∃ w, s = w ++ trimStart s.
Proof. apply (trimStart_spec_below (S (String.length s))). lia. Qed.

Lemma trimStart_rev_spec_below (n : nat) :
  ∀ s, (String.length s < n)%nat →
       lead_ws_rev (trimStart_rev s) = false ∧ ∃ w, s = w ++ trimStart_rev s.
Proof.
  induction n as [| n IH]; intros s Hn; [lia |].
  destruct s as [| c1 r1]; [by (split; [| exists ""]) |]. simpl in Hn.
  change (trimStart_rev (String c1 r1))
    with (if ws1 c1 then trimStart_rev r1 else
          match r1 with
          | String c2 r2 =>
              if ws2 c2 c1 then trimStart_rev r2 else
              match r2 with
              | String c3 r3 =>
                  if ws3 c3 c2 c1 then trimStart_rev r3 else String c1 r1
              | EmptyString => String c1 r1
              end
          | EmptyString => String c1 r1
          end).
  destruct (ws1 c1) eqn:E1.
  { destruct (IH r1) as [H (w & Hw)]; [lia |]. split; [done |].
    exists (String c1 w). by rewrite Hw at 1. }
  destruct r1 as [| c2 r2].
  { split; [simpl; by rewrite E1 | by exists ""]. }
  simpl in Hn. destruct (ws2 c2 c1) eqn:E2.
  { destruct (IH r2) as [H (w & Hw)]; [lia |]. split; [done |].
    exists (String c1 (String c2 w)). by rewrite Hw at 1. }
  destruct r2 as [| c3 r3].
  { split; [simpl; by rewrite E1, E2 | by exists ""]. }
  simpl in Hn. destruct (ws3 c3 c2 c1) eqn:E3.
  { destruct (IH r3) as [H (w & Hw)]; [lia |]. split; [done |].
    exists (String c1 (String c2 (String c3 w))). by rewrite Hw at 1. }
  split; [simpl; by rewrite E1, E2, E3 | by exists ""].
Qed.

Lemma trimStart_rev_spec (s : string) :
  lead_ws_rev (trimStart_rev s) = false ∧ ∃ w, s = w ++ trimStart_rev s.
Proof. apply (trimStart_rev_spec_below (S (String.length s))). lia. Qed.

(** A text that does not begin with white space is left as it is. *)
Lemma trimStart_fixed (s : string) : lead_ws s = false → trimStart s = s.
Proof.
  destruct s as [| c1 [| c2 [| c3 r3]]]; simpl; try done.
  - by intros ->%orb_false_iff%proj1.
  - intros [-> [-> _]%orb_false_iff]%orb_false_iff. done.
  - intros [-> [-> ->]%orb_false_iff]%orb_false_iff. done.
Qed.

Lemma trimStart_rev_fixed (s : string) : lead_ws_rev s = false → trimStart_rev s = s.
Proof.
  destruct s as [| c1 [| c2 [| c3 r3]]]; simpl; try done.
  - by intros ->%orb_false_iff%proj1.
  - intros [-> [-> _]%orb_false_iff]%orb_false_iff. done.
  - intros [-> [-> ->]%orb_false_iff]%orb_false_iff. done.
Qed.

(** White space at the beginning of a text begins every longer text. *)
Lemma lead_ws_prefix (u w : string) : lead_ws u = true → lead_ws (u ++ w) = true.
Proof.
  destruct u as [| c1 [| c2 [| c3 r3]]]; simpl; try done.
  - rewrite orb_false_r. intros ->. done.
  - rewrite orb_false_r. intros [-> | ->]%orb_true_iff; [done |].
    by rewrite orb_true_r.
Qed.

Lemma trimEnd_prefix (s : string) : ∃ w, s = trimEnd s ++ w.
Proof.
  unfold trimEnd. destruct (trimStart_rev_spec (reverse s)) as [_ (w & Hw)].
  exists (reverse w). rewrite <- reverse_append, <- Hw. by rewrite reverse_involutive.
Qed.

Lemma trimEnd_idempotent (s : string) : trimEnd (trimEnd s) = trimEnd s.
Proof.
  unfold trimEnd. rewrite reverse_involutive.
  destruct (trimStart_rev_spec (reverse s)) as [H _].
  by rewrite (trimStart_rev_fixed _ H).
Qed.

(** [trim] is idempotent: a trimmed text has no white space left at either
    end. *)
Lemma trim_idempotent (s : string) : trim (trim s) = trim s.
Proof.
  unfold trim. destruct (trimStart_spec s) as [H _].
  destruct (trimEnd_prefix (trimStart s)) as (w & Hw).
  assert (lead_ws (trimEnd (trimStart s)) = false) as Hl.
  { destruct (lead_ws (trimEnd (trimStart s))) eqn:E; [| done].
    apply (lead_ws_prefix _ w) in E. rewrite <- Hw in E. congruence. }
  by rewrite (trimStart_fixed _ Hl), trimEnd_idempotent.
Qed.

(** ** API keys *)

Lemma truthy_true (s : string) : truthy s = true ↔ s ≠ "".
Proof. destruct s; simpl; split; intros; congruence. Qed.

Lemma truthy_false (s : string) : truthy s = false ↔ s = "".
Proof. destruct s; simpl; split; intros; congruence. Qed.

Lemma handleAddApiKey_skip (st : Home) :
  trim (newApiKey st) = "" ∨ trim (newApiKey st) ∈ apiKeys st →
  handleAddApiKey st = st.
Proof.
  intros [E | E]; unfold handleAddApiKey.
  - rewrite E. reflexivity.
  - rewrite (bool_decide_eq_true_2 _ E), andb_false_r. reflexivity.
Qed.

Lemma handleAddApiKey_insert (st : Home) :
  trim (newApiKey st) ≠ "" → trim (newApiKey st) ∉ apiKeys st →
  handleAddApiKey st =
    setShowAddForm false
      (setNewApiKey ""
         (setSelectedApiKey (trim (newApiKey st))
            (setApiKeys (apiKeys st ++ [trim (newApiKey st)])%list st))).
Proof.
  intros Hne Hin. unfold handleAddApiKey.
  apply truthy_true in Hne. rewrite Hne.
  rewrite (bool_decide_eq_false_2 _ Hin). reflexivity.
Qed.

Lemma addAll_apiKeys (raws : list string) :
  ∀ st, apiKeys (addAll raws st)
        = (apiKeys st ++ first_occurrences (apiKeys st) (candidates raws))%list.
Proof.
  induction raws as [| raw raws IH]; intros st.
  - simpl. by rewrite app_nil_r.
  - change (addAll (raw :: raws) st) with (addAll raws (addCredential raw st)).
    rewrite IH. unfold candidates. rewrite fmap_cons.
    destruct (truthy (trim raw)) eqn:Ht.
    + rewrite filter_cons_True by done. simpl.
      destruct (decide (trim raw ∈ apiKeys st)) as [Hin | Hin].
      * unfold addCredential. rewrite handleAddApiKey_skip by (right; exact Hin).
        simpl. by rewrite (bool_decide_eq_true_2 _ Hin).
      * unfold addCredential.
        rewrite handleAddApiKey_insert; [| by apply truthy_true | exact Hin].
        simpl. rewrite (bool_decide_eq_false_2 _ Hin). by rewrite <- app_assoc.
    + rewrite filter_cons_False by (rewrite Ht; discriminate).
      unfold addCredential. rewrite handleAddApiKey_skip; [done |].
      left. by apply truthy_false.
Qed.

Lemma first_occurrences_NoDup (keys : list string) :
  ∀ seen, NoDup seen → NoDup (seen ++ first_occurrences seen keys).
Proof.
  induction keys as [| k keys IH]; intros seen Hs; simpl.
  - by rewrite app_nil_r.
  - case_bool_decide as Hin; [by apply IH |].
    rewrite cons_middle, (assoc_L (++) seen [k]). apply IH.
    apply NoDup_app. split_and!; [done | | apply NoDup_singleton].
    intros x Hx ->%list_elem_of_singleton. contradiction.
Qed.

(** C8: starting from the empty list, any sequence of [addCredential]
    calls leaves a list without duplicates that holds the trimmed,
    non-empty inputs in the order of their first insertion; a call whose
    trimmed input is empty or already in the list changes nothing but the
    input buffer, and any other call appends the trimmed input, selects it
    and clears the buffer. *)
Theorem C8_addCredential_unique_in_first_insertion_order
  (raws : list string) (st : Home) :
  apiKeys st = [] →
  NoDup (apiKeys (addAll raws st))
  ∧ apiKeys (addAll raws st) = first_occurrences [] (candidates raws)
  ∧ (∀ raw st0, trim raw = "" ∨ trim raw ∈ apiKeys st0 →
       addCredential raw st0 = setNewApiKey raw st0)
  ∧ (∀ raw st0, trim raw ≠ "" → trim raw ∉ apiKeys st0 →
       apiKeys (addCredential raw st0) = (apiKeys st0 ++ [trim raw])%list
       ∧ selectedApiKey (addCredential raw st0) = trim raw
       ∧ newApiKey (addCredential raw st0) = "").
Proof.
  intros He. split_and!.
  - rewrite addAll_apiKeys, He. apply (first_occurrences_NoDup _ []), NoDup_nil_2.
  - by rewrite addAll_apiKeys, He.
  - intros raw st0 H. unfold addCredential. by apply handleAddApiKey_skip.
  - intros raw st0 Hne Hin. unfold addCredential.
    by rewrite handleAddApiKey_insert.
Qed.

Lemma first_or_empty_head (keys : list string) : first_or_empty keys = hd "" keys.
Proof.
  destruct keys as [| k ?]; [done |]. simpl.
  destruct (truthy k) eqn:E; [done |]. by apply truthy_false in E.
Qed.

(** C9: deleting the selected key removes it from the list, keeps the
    other keys in their order, and selects the first key that is left, or
    the empty selection when none is. *)
Theorem C9_delete_selected_reselects_first (st : Home) :
  let st' := handleDeleteApiKey (selectedApiKey st) st in
  (selectedApiKey st ∉ apiKeys st')
  ∧ (∀ k, k ∈ apiKeys st' ↔ k ∈ apiKeys st ∧ k ≠ selectedApiKey st)
  ∧ (apiKeys st' `sublist_of` apiKeys st)
  ∧ selectedApiKey st' = match apiKeys st' with k :: _ => k | [] => "" end.
Proof.
  unfold handleDeleteApiKey. rewrite bool_decide_eq_true_2 by done. simpl.
  split_and!.
  - rewrite list_elem_of_filter. intros [Hsame _]. by apply Hsame.
  - intros k. rewrite list_elem_of_filter. split; intros [? ?]; by split.
  - apply sublist_filter.
  - rewrite first_or_empty_head. by destruct (filter _ _).
Qed.

Lemma filter_keep_all {A} (P : A → Prop) `{∀ x, Decision (P x)} (l : list A) :
  Forall P l → filter P l = l.
Proof.
  induction 1 as [| x l Hx _ IH]; [done |].
  by rewrite filter_cons_True, IH.
Qed.

Lemma filter_remove_unique (target : string) (l1 l2 : list string) :
  target ∉ l1 → target ∉ l2 →
  filter (λ key, key ≠ target) (l1 ++ target :: l2)%list = (l1 ++ l2)%list.
Proof.
  intros H1 H2. rewrite filter_app, filter_cons_False by (intros ?; done).
  f_equal; apply filter_keep_all, Forall_forall; intros x Hx ->; contradiction.
Qed.

(** C10: deleting a key of the list that is not the selected one removes
    it, keeps the other keys in their order (in a list without duplicates
    the key is cut out where it stood), and leaves the selection and the
    rest of the state as they were. *)
Theorem C10_delete_other_keeps_selection (st : Home) (target : string) :
  target ∈ apiKeys st → target ≠ selectedApiKey st →
  let st' := handleDeleteApiKey target st in
  (target ∉ apiKeys st')
  ∧ (∀ k, k ∈ apiKeys st' ↔ k ∈ apiKeys st ∧ k ≠ target)
  ∧ (apiKeys st' `sublist_of` apiKeys st)
  ∧ (NoDup (apiKeys st) →
     ∃ l1 l2, apiKeys st = (l1 ++ target :: l2)%list ∧ apiKeys st' = (l1 ++ l2)%list)
  ∧ selectedApiKey st' = selectedApiKey st
  ∧ st' = setApiKeys (apiKeys st') st.
Proof.
  intros Hin Hne. unfold handleDeleteApiKey.
  rewrite bool_decide_eq_false_2 by congruence. simpl.
  split_and!; try done.
  - rewrite list_elem_of_filter. intros [Hsame _]. by apply Hsame.
  - intros k. rewrite list_elem_of_filter. split; intros [? ?]; by split.
  - apply sublist_filter.
  - intros Hnd. destruct (list_elem_of_split _ _ Hin) as (l1 & l2 & E).
    exists l1, l2. split; [done |]. rewrite E in Hnd |- *.
    apply NoDup_app in Hnd as (_ & Hd & Hnd2).
    apply NoDup_cons in Hnd2 as [Hn2 _].
    apply filter_remove_unique; [| done].
    intros Hx. apply (Hd _ Hx). left.
Qed.

(** ** Running one slot *)

Lemma processQuestion_guard (st : Home) (i : nat) (q : QuestionResult) :
  questions st !! i = Some q →
  trim (selectedApiKey st) = "" ∨ trim (question q) = "" →
  processQuestion i st
  = (setQuestions (alter (with_error (Some MSG_REQUIRED)) i (questions st)) st, Fulfilled).
Proof.
  intros Hq H. unfold processQuestion. rewrite Hq.
  destruct H as [H | H]; rewrite H; simpl; [done | by rewrite orb_true_r].
Qed.

Lemma processQuestion_start (st : Home) (i : nat) (q : QuestionResult) :
  questions st !! i = Some q →
  trim (selectedApiKey st) ≠ "" → trim (question q) ≠ "" →
  processQuestion i st
  = (generateContent {| call_index := i; call_apiKey := selectedApiKey st;
                        call_question := question q |}
       (setQuestions (alter begin_run i (questions st)) st),
     Awaits (length (calls st))).
Proof.
  intros Hq H1%truthy_true H2%truthy_true. unfold processQuestion.
  by rewrite Hq, H1, H2.
Qed.

(** C3: when the trimmed selected key or the trimmed question of slot [i]
    is empty, [processQuestion i] makes no call, returns at once, writes
    the key-and-question message into the slot's [error] and writes no
    other field of any slot: [isLoading] is not set, so it is [false] after
    the check wherever it was [false] before, as it is whenever the page
    lets the slot be run. *)
Theorem C3_guard_sets_error_without_call (st : Home) (i : nat) (q : QuestionResult) :
  questions st !! i = Some q →
  trim (selectedApiKey st) = "" ∨ trim (question q) = "" →
  let st' := fst (processQuestion i st) in
  calls st' = calls st ∧ pending st' = pending st
  ∧ snd (processQuestion i st) = Fulfilled
  ∧ (∃ q', questions st' !! i = Some q'
       ∧ error q' = Some MSG_REQUIRED
       ∧ isLoading q' = isLoading q
       ∧ (isLoading q = false → isLoading q' = false)
       ∧ (enabled st (ClickRun i) = true → isLoading q' = false)
       ∧ question q' = question q ∧ result q' = result q)
  ∧ (∀ j, j ≠ i → questions st' !! j = questions st !! j).
Proof.
  intros Hq H. rewrite (processQuestion_guard st i q Hq H). simpl.
  split_and!; try done.
  - exists (with_error (Some MSG_REQUIRED) q).
    rewrite list_lookup_alter_eq, Hq. simpl. split_and!; try done.
    intros [_ Hl%negb_true_iff]%andb_true_iff. done.
  - intros j Hj. by apply list_lookup_alter_ne.
Qed.

(** ** Run all *)

Lemma no_valid_questions (qs : list QuestionResult) :
  Forall (λ q, trim (question q) = "") qs →
  filter (λ q, truthy (trim (question q)) = true) qs = [].
Proof.
  induction 1 as [| q qs Hq _ IH]; [done |].
  rewrite filter_cons_False; [done |]. by rewrite Hq.
Qed.

(** C5: without a selected key (after trimming), or without any slot whose
    trimmed question is not empty, [handleSubmitAll] only shows an alert:
    no call is made, nothing is awaited and no slot is written. *)
Theorem C5_submit_all_refused (st : Home) :
  trim (selectedApiKey st) = "" ∨ Forall (λ q, trim (question q) = "") (questions st) →
  let st' := fst (handleSubmitAll st) in
  calls st' = calls st ∧ pending st' = pending st
  ∧ questions st' = questions st
  ∧ snd (handleSubmitAll st) = []
  ∧ (∃ msg, st' = alert msg st).
Proof.
  intros H. unfold handleSubmitAll.
  destruct (truthy (trim (selectedApiKey st))) eqn:Hk; simpl.
  - destruct H as [H | H]; [by rewrite H in Hk |].
    rewrite (no_valid_questions _ H). simpl. split_and!; try done. by eexists.
  - split_and!; try done. by eexists.
Qed.

(** *** The join *)

Lemma settle_calls (id : nat) (o : outcome) (st : Home) :
  calls (settle id o st) = calls st.
Proof. unfold settle. repeat case_match; done. Qed.

Lemma settle_elsewhere (id : nat) (o : outcome) (st : Home) (j : nat) :
  (∀ c, calls st !! id = Some c → call_index c ≠ j) →
  questions (settle id o st) !! j = questions st !! j.
Proof.
  intros H. unfold settle. repeat case_match; try done. simpl.
  apply list_lookup_alter_ne. by apply H.
Qed.

Lemma settle_pending (id : nat) (o : outcome) (st : Home) (id' : nat) :
  is_Some (calls st !! id) →
  id' ∈ pending (settle id o st) ↔ id' ∈ pending st ∧ id' ≠ id.
Proof.
  intros [c Hc]. unfold settle. rewrite Hc. case_bool_decide as Hin; simpl.
  - rewrite list_elem_of_filter. tauto.
  - split; [| tauto]. intros H. split; [done |]. by intros ->.
Qed.

Lemma run_cons (e : event) (es : list event) (st : Home) :
  run (e :: es) st = run es (step st e).
Proof. done. Qed.

Lemma settle_only_run (n m : nat) (cn cm : Call) (es : list event) :
  ∀ st, calls st !! n = Some cn → calls st !! m = Some cm →
  Forall (λ e, ∃ o, e = Settle n o ∨ e = Settle m o) es →
  calls (run es st) = calls st
  ∧ (∀ j, j ≠ call_index cn → j ≠ call_index cm →
       questions (run es st) !! j = questions st !! j)
  ∧ (∀ id, id ∈ pending (run es st) ↔ id ∈ pending st ∧ settles id es = false).
Proof.
  induction es as [| e es IH]; intros st Hn Hm Hes.
  - simpl. split_and!; try done. intros id. tauto.
  - apply Forall_cons in Hes as [(o & He) Hes]. rewrite run_cons.
    assert (∃ id c, e = Settle id o ∧ calls st !! id = Some c
                    ∧ (c = cn ∨ c = cm) ∧ (id = n ∨ id = m))
      as (id & c & -> & Hc & Hcc & Hid) by (destruct He as [-> | ->]; eauto 10).
    simpl. destruct (IH (settle id o st)) as (IHc & IHq & IHp);
      [by rewrite settle_calls .. | done |].
    rewrite settle_calls in IHc. split_and!; [done | |].
    + intros j Hj1 Hj2. rewrite IHq by done. apply settle_elsewhere.
      intros c' Hc'. rewrite Hc in Hc'. injection Hc' as <-.
      destruct Hcc as [-> | ->]; congruence.
    + intros id'. rewrite IHp, settle_pending by eauto.
      rewrite orb_false_iff, Nat.eqb_neq. intuition congruence.
Qed.

(** C4: with the key ["k1"] selected and the questions
    ["query A"], [""], ["query B"], [""], [""], [handleSubmitAll] makes
    exactly two calls, for slots 0 and 2, and awaits both: whatever the two
    calls settle with and in whatever order, the join is over exactly when
    both have settled, no further call is made, and slots 1, 3 and 4 are
    never written. *)
Theorem C4_submit_all_fans_out_and_joins (st : Home) :
  selectedApiKey st = "k1" →
  question <$> questions st = ["query A"; ""; "query B"; ""; ""] →
  let n := length (calls st) in
  let st1 := fst (handleSubmitAll st) in
  let ps := snd (handleSubmitAll st) in
  calls st1 = (calls st ++ [ {| call_index := 0; call_apiKey := "k1"; call_question := "query A" |};
                             {| call_index := 2; call_apiKey := "k1"; call_question := "query B" |} ])%list
  ∧ ps = [Awaits n; Fulfilled; Awaits (S n); Fulfilled; Fulfilled]
  ∧ all_resolved st1 ps = false
  ∧ (∀ j, j ∈ [1; 3; 4] → questions st1 !! j = questions st !! j)
  ∧ (∀ es, Forall (λ e, ∃ o, e = Settle n o ∨ e = Settle (S n) o) es →
       let st2 := run es st1 in
       calls st2 = calls st1
       ∧ (∀ j, j ∈ [1; 3; 4] → questions st2 !! j = questions st !! j)
       ∧ all_resolved st2 ps = settles n es && settles (S n) es).
Proof.
  intros Hk Hq.
  destruct st as [ks sel buf form qs cs pend al]. simpl in Hk, Hq. subst sel.
  destruct qs as [| [a0 r0 e0 l0] [| [a1 r1 e1 l1] [| [a2 r2 e2 l2]
    [| [a3 r3 e3 l3] [| [a4 r4 e4 l4] [| ? ?]]]]]]; simpl in Hq; simplify_eq.
  set (cA := {| call_index := 0; call_apiKey := "k1"; call_question := "query A" |}).
  set (cB := {| call_index := 2; call_apiKey := "k1"; call_question := "query B" |}).
  set (st := {| apiKeys := ks; selectedApiKey := "k1"; newApiKey := buf;
                showAddForm := form;
                questions := [ {| question := "query A"; result := r0; error := e0; isLoading := l0 |};
                               {| question := ""; result := r1; error := e1; isLoading := l1 |};
                               {| question := "query B"; result := r2; error := e2; isLoading := l2 |};
                               {| question := ""; result := r3; error := e3; isLoading := l3 |};
                               {| question := ""; result := r4; error := e4; isLoading := l4 |} ];
                calls := cs; pending := pend; alerts := al |}).
  assert (handleSubmitAll st
          = ({| apiKeys := ks; selectedApiKey := "k1"; newApiKey := buf;
                showAddForm := form;
                questions := [ {| question := "query A"; result := None; error := None; isLoading := true |};
                               {| question := ""; result := r1; error := e1; isLoading := l1 |};
                               {| question := "query B"; result := None; error := None; isLoading := true |};
                               {| question := ""; result := r3; error := e3; isLoading := l3 |};
                               {| question := ""; result := r4; error := e4; isLoading := l4 |} ];
                calls := ((cs ++ [cA]) ++ [cB])%list;
                pending := ((pend ++ [length cs]) ++ [length (cs ++ [cA])%list])%list;
                alerts := al |},
              [Awaits (length cs); Fulfilled; Awaits (length (cs ++ [cA])%list);
               Fulfilled; Fulfilled])) as E by reflexivity.
  rewrite E. clear E. simpl. rewrite length_app, Nat.add_1_r. simpl.
  assert (∀ l : list nat, bool_decide (length cs ∈ ((l ++ [length cs]) ++ [S (length cs)])%list) = true)
    as Hn by (intros l; apply bool_decide_eq_true; set_solver).
  split_and!.
  - by rewrite <- app_assoc.
  - done.
  - by rewrite Hn.
  - intros j Hj. repeat (apply elem_of_cons in Hj as [-> | Hj]); try done.
    by apply elem_of_nil in Hj.
  - intros es Hes.
    match goal with |- context [run es ?s] => set (st1 := s) end.
    destruct (settle_only_run (length cs) (S (length cs)) cA cB es st1) as (Hc & Hqs & Hp).
    { simpl. rewrite lookup_app_l by (rewrite length_app; simpl; lia).
      by rewrite list_lookup_middle. }
    { simpl. rewrite list_lookup_middle; [done |]. rewrite length_app. simpl. lia. }
    { done. }
    split_and!.
    + done.
    + intros j Hj. rewrite Hqs.
      * repeat (apply elem_of_cons in Hj as [-> | Hj]); try done.
        by apply elem_of_nil in Hj.
      * intros ->. simpl in Hj. set_solver.
      * intros ->. simpl in Hj. set_solver.
    + unfold all_resolved. simpl. rewrite !andb_true_r.
      assert (∀ id, id ∈ pending st1 →
                bool_decide (id ∈ pending (run es st1)) = negb (settles id es)) as Hb.
      { intros id Hin. destruct (settles id es) eqn:Hs; simpl.
        - apply bool_decide_eq_false. rewrite Hp. intros [_ ?]. congruence.
        - apply bool_decide_eq_true. by rewrite Hp. }
      rewrite !Hb, !negb_involutive; [done | |]; simpl; set_solver.
Qed.

(** ** One run from its start to its end *)





Lemma existsb_lookup {A} (f : A → bool) (l : list A) (i : nat) (x : A) :
  l !! i = Some x → f x = true → existsb f l = true.
Proof.
  intros Hl Hf. apply existsb_exists. exists x. split; [| done].
  apply list_elem_of_In, list_elem_of_lookup. eauto.
Qed.








(** ** What holds on every page a session reaches *)

Lemma flights_ext (st st' : Home) :
  pending st' = pending st → calls st' = calls st → questions st' = questions st →
  flights st → flights st'.
Proof. unfold flights, in_flight_shown, one_call_per_slot. intros -> -> ->. done. Qed.

Lemma keys_trimmed_ext (st st' : Home) :
  apiKeys st' = apiKeys st → selectedApiKey st' = selectedApiKey st →
  keys_trimmed st → keys_trimmed st'.
Proof. unfold keys_trimmed. intros -> ->. done. Qed.

Lemma flights_alter (f : QuestionResult → QuestionResult) (j : nat) (st : Home) :
  (∀ q, isLoading (f q) = isLoading q) →
  flights st → flights (setQuestions (alter f j (questions st)) st).
Proof.
  intros Hf [Hshown Hone]. split; [| done].
  intros id Hin. destruct (Hshown id Hin) as (c & q & Hc & Hq & Hl).
  exists c. simpl. destruct (decide (j = call_index c)) as [-> | Hne].
  - exists (f q). rewrite list_lookup_alter_eq, Hq, Hf. done.
  - exists q. by rewrite list_lookup_alter_ne.
Qed.

Lemma flights_processQuestion (i : nat) (st : Home) :
  flights st → (∀ q, questions st !! i = Some q → isLoading q = false) →
  flights (fst (processQuestion i st)).
Proof.
  intros Hfl Hidle. unfold processQuestion.
  destruct (questions st !! i) as [q |] eqn:Hq; [| done].
  case_match; simpl; [by apply flights_alter |].
  destruct Hfl as [Hshown Hone].
  assert (∀ id, id ∈ pending st →
            ∃ c q', calls st !! id = Some c ∧ questions st !! call_index c = Some q'
                    ∧ isLoading q' = true ∧ call_index c ≠ i) as Hold.
  { intros id Hin. destruct (Hshown id Hin) as (c & q' & Hc & Hq' & Hl).
    exists c, q'. split_and!; try done. intros E. rewrite E, Hq in Hq'.
    injection Hq' as <-. rewrite (Hidle q eq_refl) in Hl. done. }
  split.
  - intros id [Hin | ->%list_elem_of_singleton]%elem_of_app; simpl.
    + destruct (Hold id Hin) as (c & q' & Hc & Hq' & Hl & Hne).
      exists c, q'. split_and!; [by apply lookup_app_l_Some | | done].
      by rewrite list_lookup_alter_ne.
    + exists {| call_index := i; call_apiKey := selectedApiKey st;
                call_question := question q |}, (begin_run q).
      rewrite list_lookup_middle by done. simpl.
      by rewrite list_lookup_alter_eq, Hq.
  - intros id id' c c' Hin Hin' Hc Hc' E. simpl in *.
    apply elem_of_app in Hin as [Hin | ->%list_elem_of_singleton];
      apply elem_of_app in Hin' as [Hin' | ->%list_elem_of_singleton]; [| | | done].
    + destruct (Hold id Hin) as (c0 & _ & Hc0 & _).
      destruct (Hold id' Hin') as (c0' & _ & Hc0' & _).
      rewrite (lookup_app_l_Some _ _ _ _ Hc0) in Hc.
      rewrite (lookup_app_l_Some _ _ _ _ Hc0') in Hc'. simplify_eq. eauto.
    + destruct (Hold id Hin) as (c0 & _ & Hc0 & _ & _ & Hne).
      rewrite (lookup_app_l_Some _ _ _ _ Hc0) in Hc.
      rewrite list_lookup_middle in Hc' by done. by simplify_eq.
    + destruct (Hold id' Hin') as (c0 & _ & Hc0 & _ & _ & Hne).
      rewrite (lookup_app_l_Some _ _ _ _ Hc0) in Hc'.
      rewrite list_lookup_middle in Hc by done. by simplify_eq.
Qed.

Lemma processQuestion_other (i j : nat) (st : Home) :
  j ≠ i → questions (fst (processQuestion i st)) !! j = questions st !! j.
Proof.
  intros Hne. unfold processQuestion. destruct (questions st !! i); [| done].
  case_match; simpl; by apply list_lookup_alter_ne.
Qed.

Lemma processQuestion_keys (i : nat) (st : Home) :
  apiKeys (fst (processQuestion i st)) = apiKeys st
  ∧ selectedApiKey (fst (processQuestion i st)) = selectedApiKey st.
Proof.
  unfold processQuestion. destruct (questions st !! i); [| done]. by case_match.
Qed.

Lemma submit_each_cons (index : nat) (rest : list nat) (st : Home) :
  fst (submit_each (index :: rest) st)
  = fst (submit_each rest
           (if has_question index st then fst (processQuestion index st) else st)).
Proof.
  simpl. destruct (has_question index st).
  - destruct (processQuestion index st) as [st1 p]. simpl.
    by destruct (submit_each rest st1).
  - by destruct (submit_each rest st).
Qed.

Lemma flights_submit_each (indices : list nat) :
  ∀ st, NoDup indices → flights st →
        (∀ i q, i ∈ indices → questions st !! i = Some q → isLoading q = false) →
        flights (fst (submit_each indices st)).
Proof.
  induction indices as [| i rest IH]; intros st Hnd Hfl Hidle; [done |].
  apply NoDup_cons in Hnd as [Hi Hnd]. rewrite submit_each_cons.
  destruct (has_question i st).
  - apply IH; [done | |].
    + apply flights_processQuestion; [done |]. intros q. apply Hidle. left.
    + intros j q Hj. rewrite processQuestion_other by (intros ->; done).
      apply Hidle. by right.
  - apply IH; [done | done |]. intros j q Hj. apply Hidle. by right.
Qed.

Lemma submit_each_keys (indices : list nat) :
  ∀ st, apiKeys (fst (submit_each indices st)) = apiKeys st
        ∧ selectedApiKey (fst (submit_each indices st)) = selectedApiKey st.
Proof.
  induction indices as [| i rest IH]; intros st; [done |].
  rewrite submit_each_cons. destruct (has_question i st); [| apply IH].
  destruct (IH (fst (processQuestion i st))) as [-> ->]. apply processQuestion_keys.
Qed.

Lemma not_loading (qs : list QuestionResult) (i : nat) (q : QuestionResult) :
  existsb isLoading qs = false → qs !! i = Some q → isLoading q = false.
Proof.
  intros He Hq. destruct (isLoading q) eqn:Hl; [| done].
  by rewrite (existsb_lookup isLoading qs i q Hq Hl) in He.
Qed.

Lemma flights_settle (id : nat) (o : outcome) (st : Home) :
  flights st → flights (settle id o st).
Proof.
  intros [Hshown Hone]. unfold settle. case_bool_decide as Hin; [| done].
  destruct (calls st !! id) as [c |] eqn:Hc; [| done]. split.
  - intros id' [Hne Hin']%list_elem_of_filter. simpl in *.
    destruct (Hshown id' Hin') as (c' & q' & Hc' & Hq' & Hl).
    exists c', q'. split_and!; try done.
    rewrite list_lookup_alter_ne; [done |]. intros E. apply Hne. symmetry. eauto.
  - intros id1 id2 c1 c2 [_ H1]%list_elem_of_filter [_ H2]%list_elem_of_filter.
    simpl. eauto.
Qed.

Lemma keys_trimmed_handleAddApiKey (st : Home) :
  keys_trimmed st → keys_trimmed (handleAddApiKey st).
Proof.
  intros [Hk Hs]. unfold handleAddApiKey.
  destruct (truthy (trim (newApiKey st))) eqn:Ht; [| done].
  case_bool_decide; [done |]. simpl. split.
  - intros k [Hin | ->%list_elem_of_singleton]%elem_of_app; [by apply Hk |].
    split; [apply trim_idempotent | by apply truthy_true].
  - right. apply elem_of_app. right. by apply list_elem_of_singleton.
Qed.

Lemma keys_trimmed_handleDeleteApiKey (st : Home) :
  keys_trimmed st → keys_trimmed (handleDeleteApiKey (selectedApiKey st) st).
Proof.
  intros [Hk Hs]. unfold handleDeleteApiKey.
  rewrite bool_decide_eq_true_2 by done. simpl. split.
  - intros k [_ Hin]%list_elem_of_filter. by apply Hk.
  - rewrite first_or_empty_head.
    destruct (filter _ _) as [| k ks]; [by left | right; left].
Qed.

(** Every step the page allows keeps the page consistent. *)
Lemma consistent_step (st : Home) (e : event) :
  consistent st → enabled st e = true → consistent (step st e).
Proof.
  intros [Hfl Hkeys] Hen. destruct e; simpl in *.
  - split; [by apply (flights_ext st) | by apply (keys_trimmed_ext st)].
  - split; [| by apply keys_trimmed_handleAddApiKey].
    unfold handleAddApiKey. case_match; [by apply (flights_ext st) | done].
  - split; [| by apply keys_trimmed_handleDeleteApiKey].
    unfold handleDeleteApiKey. case_match; by apply (flights_ext st).
  - split; [by apply (flights_ext st) |]. destruct Hkeys as [Hk _]. split; [done |].
    apply andb_true_iff in Hen as [_ [Hn | Hin]%orb_true_iff].
    + left. apply negb_true_iff in Hn. by apply truthy_false.
    + right. by apply bool_decide_eq_true in Hin.
  - split; [by apply (flights_ext st) | by apply (keys_trimmed_ext st)].
  - split; [by apply (flights_ext st) | by apply (keys_trimmed_ext st)].
  - split; [by apply flights_alter | by apply (keys_trimmed_ext st)].
  - split.
    + apply flights_processQuestion; [done |]. intros q Hq. rewrite Hq in Hen.
      by apply andb_true_iff in Hen as [_ ?%negb_true_iff].
    + destruct (processQuestion_keys index st). by apply (keys_trimmed_ext st).
  - apply negb_true_iff in Hen. unfold handleSubmitAll.
    destruct (negb (truthy (trim (selectedApiKey st)))); simpl;
      [split; [by apply (flights_ext st) | by apply (keys_trimmed_ext st)] |].
    destruct (Nat.eqb (length _) 0); simpl;
      [split; [by apply (flights_ext st) | by apply (keys_trimmed_ext st)] |].
    split.
    + apply flights_submit_each; [apply NoDup_seq | done |].
      intros i q _. by apply not_loading.
    + destruct (submit_each_keys (seq 0 (length (questions st))) st).
      by apply (keys_trimmed_ext st).
  - split; [by apply flights_settle |].
    apply (keys_trimmed_ext st); [| | done]; unfold settle; repeat case_match; done.
Qed.

Lemma reachable_consistent (st : Home) : reachable st → consistent st.
Proof.
  induction 1 as [| st e _ IH Hen]; [| by apply consistent_step].
  split; [split |].
  - intros id Hin. by apply elem_of_nil in Hin.
  - intros id id' c c' Hin. by apply elem_of_nil in Hin.
  - split; [| by left]. intros k Hin. by apply elem_of_nil in Hin.
Qed.

Lemma reachable_session (es : list event) :
  ∀ st st', reachable st → session es st = Some st' → reachable st'.
Proof.
  induction es as [| e es IH]; intros st st' Hr Hs; simpl in Hs; [by simplify_eq |].
  destruct (enabled st e) eqn:Hen; [| done].
  apply (IH (step st e)); [by constructor | done].
Qed.

(** On a page that a session reaches, the hypotheses of C2 hold as soon as
    a key is selected and the button of slot [i] can be pressed: the
    selected key is not blank, the question is not blank, and no call made
    for slot [i] is awaited. *)
Lemma reachable_ready_to_run (st : Home) (i : nat) :
  reachable st → selectedApiKey st ≠ "" → enabled st (ClickRun i) = true →
  trim (selectedApiKey st) ≠ ""
  ∧ idle i st
  ∧ ∃ q, questions st !! i = Some q ∧ trim (question q) ≠ "" ∧ isLoading q = false.
Proof.
  intros [[Hshown _] [Hk Hs]]%reachable_consistent Hsel Hen. simpl in Hen.
  destruct (questions st !! i) as [q |] eqn:Hq; [| done].
  apply andb_true_iff in Hen as [Ht%truthy_true Hl%negb_true_iff].
  split_and!.
  - destruct Hs as [? | Hin]; [done |]. destruct (Hk _ Hin) as [-> ?]. done.
  - intros id c Hin Hc E. destruct (Hshown id Hin) as (c' & q' & Hc' & Hq' & Hl').
    simplify_eq. congruence.
  - by exists q.
Qed.

(** ** The answer of the service *)

Lemma trimStart_backtick (s : string) : trimStart (String "`" s) = String "`" s.
Proof. destruct s as [| c2 [| c3 s]]; reflexivity. Qed.

Lemma ws2_ends_with_backtick (c : ascii) : ws2 c "`" = false.
Proof. unfold ws2. by rewrite andb_false_r. Qed.

Lemma ws3_ends_with_backtick (c1 c2 : ascii) : ws3 c1 c2 "`" = false.
Proof. unfold ws3. simpl. by rewrite !andb_false_r. Qed.

Lemma trimStart_rev_backtick (s : string) : trimStart_rev (String "`" s) = String "`" s.
Proof.
  destruct s as [| c2 [| c3 s]]; [done | |].
  - change (trimStart_rev (String "`" (String c2 "")))
      with (if ws2 c2 "`" then trimStart_rev "" else String "`" (String c2 "")).
    by rewrite ws2_ends_with_backtick.
  - change (trimStart_rev (String "`" (String c2 (String c3 s))))
      with (if ws2 c2 "`" then trimStart_rev (String c3 s)
            else if ws3 c3 c2 "`" then trimStart_rev s
                 else String "`" (String c2 (String c3 s))).
    by rewrite ws2_ends_with_backtick, ws3_ends_with_backtick.
Qed.

Lemma trimEnd_backtick (s : string) : trimEnd (s ++ "`") = s ++ "`".
Proof.
  unfold trimEnd. rewrite reverse_append.
  change (reverse "`" ++ reverse s) with (String "`" (reverse s)).
  rewrite trimStart_rev_backtick.
  change (String "`" (reverse s)) with (reverse "`" ++ reverse s).
  by rewrite <- reverse_append, reverse_involutive.
Qed.

(** A text between backticks has no white space to trim. *)
Lemma trim_between_backticks (s : string) :
  trim (String "`" (s ++ "`")) = String "`" (s ++ "`").
Proof.
  unfold trim. rewrite trimStart_backtick.
  apply (trimEnd_backtick (String "`" s)).
Qed.

Lemma strip_closing_append (body : string) : strip_closing (body ++ "```") = body.
Proof.
  induction body as [| c body IH]; [done |].
  change (String c body ++ "```") with (String c (body ++ "```")).
  change (strip_closing (String c (body ++ "```")))
    with (if String.eqb (String c (body ++ "```")) "```" then ""
          else String c (strip_closing (body ++ "```"))).
  rewrite IH. destruct (String.eqb_spec (String c (body ++ "```")) "```") as [E | _]; [| done].
  apply (f_equal String.length) in E. simpl in E. rewrite length_append in E.
  simpl in E. lia.
Qed.

Lemma trim_fenced (s : string) : trim ("```" ++ s ++ "```") = "```" ++ s ++ "```".
Proof.
  assert ("```" ++ s ++ "```" = String "`" (("``" ++ s ++ "``") ++ "`")) as ->.
  { change (String "`" (("``" ++ s ++ "``") ++ "`"))
      with ("`" ++ (("``" ++ s ++ "``") ++ "`")).
    by rewrite !append_assoc. }
  apply trim_between_backticks.
Qed.

Lemma replace_fences_tagged (body : string) :
  replace_fences ("```json" ++ body ++ "```") = body.
Proof.
  unfold replace_fences.
  change (startsWith "```json" ("```json" ++ body ++ "```")) with true. cbv iota.
  change (drop 7 ("```json" ++ body ++ "```")) with (body ++ "```").
  apply strip_closing_append.
Qed.

Lemma replace_fences_untagged (body : string) :
  replace_fences ("```" ++ nl ++ body ++ "```") = "```" ++ nl ++ body.
Proof.
  unfold replace_fences.
  change (startsWith "```json" ("```" ++ nl ++ body ++ "```")) with false. cbv iota.
  assert ("```" ++ nl ++ body ++ "```" = ("```" ++ nl ++ body) ++ "```") as ->
    by (by rewrite !append_assoc).
  apply strip_closing_append.
Qed.

Lemma take_cons (n : nat) (c : ascii) (r : string) :
  take (S n) (String c r) = String c (take n r).
Proof. done. Qed.

Lemma strip_closing_spec (s : string) :
  strip_closing s = if endsWith "```" s then take (String.length s - 3) s else s.
Proof.
  induction s as [| c r IH]; [done |].
  change (strip_closing (String c r))
    with (if String.eqb (String c r) "```" then "" else String c (strip_closing r)).
  destruct (String.eqb_spec (String c r) "```") as [E | NE]; [by rewrite E |].
  rewrite IH. unfold endsWith.
  change (String.length "```") with 3. change (String.length (String c r)) with (S (String.length r)).
  destruct (le_lt_dec 3 (String.length r)) as [Hge | Hlt].
  - rewrite (proj2 (Nat.leb_le 3 (String.length r)) Hge).
    rewrite (proj2 (Nat.leb_le 3 (S (String.length r)))) by lia.
    replace (S (String.length r) - 3) with (S (String.length r - 3)) by lia.
    change (drop (S (String.length r - 3)) (String c r))
      with (drop (String.length r - 3) r).
    rewrite take_cons. simpl. by destruct (String.eqb _ _).
  - rewrite (proj2 (Nat.leb_gt 3 (String.length r)) Hlt), andb_false_l.
    destruct (Nat.leb 3 (S (String.length r))) eqn:E3; [| by rewrite andb_false_l].
    apply Nat.leb_le in E3. replace (S (String.length r) - 3) with 0 by lia.
    change (drop 0 (String c r)) with (String c r).
    by rewrite (proj2 (String.eqb_neq _ _) NE).
Qed.

Lemma trimEnd_fenced (s : string) : trimEnd ("```" ++ s ++ "```") = "```" ++ s ++ "```".
Proof.
  assert ("```" ++ s ++ "```" = ("```" ++ s ++ "``") ++ "`") as ->
    by (by rewrite !append_assoc).
  apply trimEnd_backtick.
Qed.

(** White space before and after a fenced text is trimmed away. *)
Lemma trim_around_fenced (s : string) :
  trim (" " ++ ("```" ++ s ++ "```") ++ nl) = "```" ++ s ++ "```".
Proof.
  unfold trim.
  assert (trimStart (" " ++ ("```" ++ s ++ "```") ++ nl) = ("```" ++ s ++ "```") ++ nl)
    as -> by exact (trimStart_backtick (("``" ++ s ++ "```") ++ nl)).
  unfold trimEnd. rewrite reverse_append.
  change (trimStart_rev (reverse nl ++ reverse ("```" ++ s ++ "```")))
    with (trimStart_rev (reverse ("```" ++ s ++ "```"))).
  apply trimEnd_fenced.
Qed.

(** C6 (as the code has it): for every answer, the text given to
    [JSON.parse] is the answer trimmed, without an opening fence if that
    fence is tagged exactly [json], without a closing fence, and trimmed
    again.  So a fence tagged [json] is removed with the white space
    around it, while an opening fence without a tag, or with another tag,
    is kept.  The answer of the example, fenced and tagged [json], parses
    to the six-field record with three empty fields. *)
Theorem C6_json_fence_removed_before_parsing :
  (∀ responseText, cleanJsonStr responseText = trim (unfence (trim responseText)))
  ∧ (∀ body, cleanJsonStr ("```json" ++ body ++ "```") = trim body)
  ∧ (∀ body, cleanJsonStr (" " ++ ("```json" ++ body ++ "```") ++ nl) = trim body)
  ∧ (∀ body, cleanJsonStr ("```" ++ nl ++ body ++ "```") = trim ("```" ++ nl ++ body))
  ∧ (∀ body, cleanJsonStr ("```JSON" ++ body ++ "```") = trim ("```JSON" ++ body))
  ∧ cleanJsonStr harry_potter_answer = harry_potter_text
  ∧ JSON_parse (cleanJsonStr harry_potter_answer) = inl (BookInfo_json harry_potter).
Proof.
  split_and!.
  - intros responseText. unfold cleanJsonStr, replace_fences, unfence.
    destruct (startsWith "```json" (trim responseText));
      by rewrite strip_closing_spec.
  - intros body. unfold cleanJsonStr.
    assert ("```json" ++ body ++ "```" = "```" ++ ("json" ++ body) ++ "```") as E
      by reflexivity.
    rewrite E, trim_fenced, <- E. by rewrite replace_fences_tagged.
  - intros body. unfold cleanJsonStr.
    assert ("```json" ++ body ++ "```" = "```" ++ ("json" ++ body) ++ "```") as E
      by reflexivity.
    rewrite E, trim_around_fenced, <- E. by rewrite replace_fences_tagged.
  - intros body. unfold cleanJsonStr.
    assert ("```" ++ nl ++ body ++ "```" = "```" ++ (nl ++ body) ++ "```") as E
      by (by rewrite !append_assoc).
    rewrite E, trim_fenced, <- E. by rewrite replace_fences_untagged.
  - intros body. unfold cleanJsonStr.
    assert ("```JSON" ++ body ++ "```" = "```" ++ ("JSON" ++ body) ++ "```") as E
      by reflexivity.
    rewrite E, trim_fenced, <- E. unfold replace_fences.
    change (startsWith "```json" ("```JSON" ++ body ++ "```")) with false. cbv iota.
    assert ("```JSON" ++ body ++ "```" = ("```JSON" ++ body) ++ "```") as ->
      by (by rewrite !append_assoc).
    by rewrite strip_closing_append.
  - reflexivity.
  - reflexivity.
Qed.

(** C7 (as the code has it): when the cleaned answer is not JSON, the
    slot's [error] becomes the message of the [SyntaxError], [result] is
    left as the run found it and [isLoading] ends [false]; when it is JSON,
    the parsed value is stored as [result] whatever its shape, and [error]
    is cleared. *)
Theorem C7_only_malformed_json_is_an_error
  (st : Home) (id : nat) (c : Call) (q : QuestionResult) (responseText : string) :
  id ∈ pending st → calls st !! id = Some c → questions st !! call_index c = Some q →
  questions (settle id (Responded responseText) st) !! call_index c
  = Some match Json.parse (cleanJsonStr responseText) with
         | None =>
             {| question := question q; result := result q;
                error := Some (syntax_error_message (cleanJsonStr responseText));
                isLoading := false |}
         | Some data =>
             {| question := question q; result := nullable data; error := None;
                isLoading := false |}
         end.
Proof.
  intros Hp Hc Hq. unfold settle.
  rewrite (bool_decide_eq_true_2 _ Hp), Hc. simpl.
  rewrite list_lookup_alter_eq, Hq. simpl. f_equal.
  unfold finish, JSON_parse. by destruct (Json.parse _).
Qed.

(** C1 (what the code does): in the session [rerun_without_key], which the
    page allows, slot 0 ends with the parsed record as [result] and the
    key-and-question message as [error] at once: the check of the second
    run writes [error] and leaves the [result] of the first run. *)
Theorem C1_check_leaves_result_beside_error :
  ∃ st q, session rerun_without_key initial = Some st
    ∧ questions st !! 0 = Some q
    ∧ result q = Some (BookInfo_json harry_potter)
    ∧ error q = Some MSG_REQUIRED
    ∧ isLoading q = false.
Proof.
  eexists _, _. split_and!; [vm_compute; reflexivity | reflexivity | reflexivity ..].
Qed.

(** * Further properties of the page *)

(** ** The prompt *)

Lemma template_split :
  split_first PLACEHOLDER PROMPT_TEMPLATE = Some (PROMPT_HEAD, PROMPT_TAIL).
Proof. vm_compute. reflexivity. Qed.

Lemma finalPrompt_unfold (question : string) :
  finalPrompt question
  = PROMPT_HEAD ++ substitution PLACEHOLDER PROMPT_HEAD PROMPT_TAIL question ++ PROMPT_TAIL.
Proof. unfold finalPrompt, replace. by rewrite template_split. Qed.

Lemma substitution_plain (m b a x r : string) :
  has_dollar x = false → substitution m b a (x ++ r) = x ++ substitution m b a r.
Proof.
  induction x as [| c x IH]; intros H; [done |].
  simpl in H. apply orb_false_iff in H as [Hc Hx].
  change (String c x ++ r) with (String c (x ++ r)).
  change (substitution m b a (String c (x ++ r)))
    with (if Ascii.eqb c "$"
          then match x ++ r with
               | String d r' =>
                   if Ascii.eqb d "$" then String "$" (substitution m b a r')
                   else if Ascii.eqb d "&" then m ++ substitution m b a r'
                   else if Ascii.eqb d "`" then b ++ substitution m b a r'
                   else if Ascii.eqb d "'" then a ++ substitution m b a r'
                   else String "$" (substitution m b a (x ++ r))
               | EmptyString => "$"
               end
          else String c (substitution m b a (x ++ r))).
  rewrite Hc, (IH Hx). done.
Qed.

Lemma append_empty_r (s : string) : s ++ "" = s.
Proof.
  induction s as [| c s IH]; [done |].
  change (String c (s ++ "") = String c s). by rewrite IH.
Qed.

Lemma substitution_no_dollar (m b a x : string) :
  has_dollar x = false → substitution m b a x = x.
Proof.
  intros H. rewrite <- (append_empty_r x) at 1.
  rewrite substitution_plain by done. apply append_empty_r.
Qed.

(** X1: a question without a dollar sign is put into the prompt as it is,
    between the two parts of the template. *)
Theorem prompt_holds_question_verbatim (question : string) :
  has_dollar question = false →
  finalPrompt question = PROMPT_HEAD ++ question ++ PROMPT_TAIL.
Proof. intros H. by rewrite finalPrompt_unfold, substitution_no_dollar. Qed.

(** X2: the question is used as a replacement pattern: in a question that
    has one dollar pattern between two texts without dollar signs, [$$]
    reaches the model as one dollar sign, [$&] as the placeholder, [$`] as
    the part of the template before the placeholder and [$'] as the part
    after it; a dollar sign before anything else, or at the end, is kept. *)
Theorem prompt_rewrites_dollar_patterns (a b : string) :
  has_dollar a = false → has_dollar b = false →
  finalPrompt (a ++ "$$" ++ b) = PROMPT_HEAD ++ (a ++ "$" ++ b) ++ PROMPT_TAIL
  ∧ finalPrompt (a ++ "$&" ++ b) = PROMPT_HEAD ++ (a ++ PLACEHOLDER ++ b) ++ PROMPT_TAIL
  ∧ finalPrompt (a ++ "$`" ++ b) = PROMPT_HEAD ++ (a ++ PROMPT_HEAD ++ b) ++ PROMPT_TAIL
  ∧ finalPrompt (a ++ "$'" ++ b) = PROMPT_HEAD ++ (a ++ PROMPT_TAIL ++ b) ++ PROMPT_TAIL
  ∧ finalPrompt (a ++ "$1" ++ b) = PROMPT_HEAD ++ (a ++ "$1" ++ b) ++ PROMPT_TAIL
  ∧ finalPrompt (a ++ "$") = PROMPT_HEAD ++ (a ++ "$") ++ PROMPT_TAIL.
Proof.
  intros Ha Hb.
  pose proof (substitution_no_dollar PLACEHOLDER PROMPT_HEAD PROMPT_TAIL b Hb) as Eb.
  split_and!; rewrite finalPrompt_unfold, substitution_plain by done.
  - change (substitution PLACEHOLDER PROMPT_HEAD PROMPT_TAIL ("$$" ++ b))
      with (String "$" (substitution PLACEHOLDER PROMPT_HEAD PROMPT_TAIL b)).
    by rewrite Eb.
  - change (substitution PLACEHOLDER PROMPT_HEAD PROMPT_TAIL ("$&" ++ b))
      with (PLACEHOLDER ++ substitution PLACEHOLDER PROMPT_HEAD PROMPT_TAIL b).
    by rewrite Eb.
  - change (substitution PLACEHOLDER PROMPT_HEAD PROMPT_TAIL ("$`" ++ b))
      with (PROMPT_HEAD ++ substitution PLACEHOLDER PROMPT_HEAD PROMPT_TAIL b).
    by rewrite Eb.
  - change (substitution PLACEHOLDER PROMPT_HEAD PROMPT_TAIL ("$'" ++ b))
      with (PROMPT_TAIL ++ substitution PLACEHOLDER PROMPT_HEAD PROMPT_TAIL b).
    by rewrite Eb.
  - change (substitution PLACEHOLDER PROMPT_HEAD PROMPT_TAIL ("$1" ++ b))
      with (String "$" (String "1" (substitution PLACEHOLDER PROMPT_HEAD PROMPT_TAIL b))).
    by rewrite Eb.
  - done.
Qed.

(** ** The fences, said without a pattern *)

(** X3: the pattern [/^```json|```$/g] removes an opening [```json] when
    the text begins with it, and then a closing fence when what is left
    ends with one; nothing else is removed. *)
Theorem replace_fences_cuts_both_ends (s : string) : replace_fences s = unfence s.
Proof.
  unfold replace_fences, unfence.
  destruct (startsWith "```json" s); simpl; apply strip_closing_spec.
Qed.

(** X4: an answer that, once trimmed, neither begins with [```json] nor
    ends with a fence reaches [JSON.parse] trimmed and otherwise as it
    is. *)
Theorem unfenced_answer_is_only_trimmed (responseText : string) :
  startsWith "```json" (trim responseText) = false →
  endsWith "```" (trim responseText) = false →
  cleanJsonStr responseText = trim responseText.
Proof.
  intros H1 H2. unfold cleanJsonStr, replace_fences.
  rewrite H1, strip_closing_spec, H2. apply trim_idempotent.
Qed.

(** ** Keys added and deleted *)

(** X5: adding a key that is new and deleting it at once (it is the
    selected key then) gives back the list of keys, but not the selection:
    the first key of the list is selected, or none when the list is
    empty. *)
Theorem add_then_delete_restores_keys_not_selection (st : Home) :
  trim (newApiKey st) ≠ "" → trim (newApiKey st) ∉ apiKeys st →
  let st1 := handleAddApiKey st in
  let st2 := handleDeleteApiKey (selectedApiKey st1) st1 in
  selectedApiKey st1 = trim (newApiKey st)
  ∧ apiKeys st2 = apiKeys st
  ∧ selectedApiKey st2 = hd "" (apiKeys st)
  ∧ newApiKey st2 = "" ∧ showAddForm st2 = false
  ∧ questions st2 = questions st.
Proof.
  intros Hne Hin. rewrite (handleAddApiKey_insert st Hne Hin). simpl.
  unfold handleDeleteApiKey. simpl. rewrite bool_decide_eq_true_2 by done. simpl.
  assert (filter (λ key, key ≠ trim (newApiKey st)) (apiKeys st ++ [trim (newApiKey st)])%list
          = apiKeys st) as E.
  { rewrite filter_app, filter_cons_False, filter_nil, app_nil_r by (intros ?; done).
    apply filter_keep_all, Forall_forall. intros k Hk ->. done. }
  rewrite E, first_or_empty_head. done.
Qed.

(** ** A question edited while its call is awaited *)

(** X6: editing the question of a slot whose call is awaited changes
    neither the call nor the rest of the slot; when the call settles, the
    answer to the old question is stored beside the new text. *)
Theorem edit_in_flight_keeps_the_old_call
  (st : Home) (i : nat) (q : QuestionResult) (text : string) (o : outcome) :
  questions st !! i = Some q →
  trim (selectedApiKey st) ≠ "" → trim (question q) ≠ "" →
  let id := length (calls st) in
  let st1 := fst (processQuestion i st) in
  let st2 := updateQuestion i text st1 in
  let st3 := settle id o st2 in
  calls st3 !! id = Some {| call_index := i; call_apiKey := selectedApiKey st;
                            call_question := question q |}
  ∧ questions st2 !! i = Some (with_question text (begin_run q))
  ∧ questions st3 !! i = Some (finish o (with_question text (begin_run q))).
Proof.
  intros Hq Hk Ht. rewrite (processQuestion_start st i q Hq Hk Ht). simpl.
  assert (i < length (questions st)) as Hi by (by eapply lookup_lt_Some).
  unfold settle. simpl.
  rewrite bool_decide_eq_true_2
    by (apply elem_of_app; right; by apply list_elem_of_singleton).
  rewrite list_lookup_middle by done. simpl.
  rewrite !list_lookup_alter_eq, Hq. split; [| done].
  by apply list_lookup_middle.
Qed.

(** ** What the handlers never do *)

Lemma submit_each_rel (R : Home → Home → Prop) :
  (∀ st, R st st) → (∀ a b c, R a b → R b c → R a c) →
  (∀ i st, R st (fst (processQuestion i st))) →
  ∀ indices st, R st (fst (submit_each indices st)).
Proof.
  intros Hrefl Htrans Hp. induction indices as [| i rest IH]; intros st; [apply Hrefl |].
  rewrite submit_each_cons. destruct (has_question i st); [| apply IH].
  eapply Htrans; [apply Hp | apply IH].
Qed.

(** A relation between the page before and after that every handler
    keeps is kept by every step. *)
Lemma step_rel (R : Home → Home → Prop) (ok : event → Prop) :
  (∀ st, R st st) → (∀ a b c, R a b → R b c → R a c) →
  (∀ st st', calls st' = calls st → questions st' = questions st → R st st') →
  (∀ i t st, ok (TypeQuestion i t) → R st (updateQuestion i t st)) →
  (∀ i st, R st (fst (processQuestion i st))) →
  (∀ id o st, R st (settle id o st)) →
  ∀ st e, ok e → R st (step st e).
Proof.
  intros Hrefl Htrans Hframe Htype Hp Hs st e Hok. destruct e; simpl; try by apply Hframe.
  - unfold handleAddApiKey. case_match; [by apply Hframe | apply Hrefl].
  - unfold handleDeleteApiKey. case_match; by apply Hframe.
  - by apply Htype.
  - apply Hp.
  - unfold handleSubmitAll. repeat case_match; try by apply Hframe.
    by apply submit_each_rel.
  - apply Hs.
Qed.

Lemma run_rel (R : Home → Home → Prop) (ok : event → Prop) :
  (∀ st, R st st) → (∀ a b c, R a b → R b c → R a c) →
  (∀ st e, ok e → R st (step st e)) →
  ∀ es st, Forall ok es → R st (run es st).
Proof.
  intros Hrefl Htrans Hstep. induction es as [| e es IH]; intros st Hes; [apply Hrefl |].
  apply Forall_cons in Hes as [He Hes]. rewrite run_cons.
  eapply Htrans; [by apply Hstep | by apply IH].
Qed.

Lemma processQuestion_calls_prefix (i : nat) (st : Home) :
  calls st `prefix_of` calls (fst (processQuestion i st)).
Proof.
  unfold processQuestion. destruct (questions st !! i); [| done].
  case_match; simpl; [done | by apply prefix_app_r].
Qed.

Lemma step_calls_prefix (st : Home) (e : event) :
  calls st `prefix_of` calls (step st e).
Proof.
  apply (step_rel (λ a b, calls a `prefix_of` calls b) (λ _, True));
    [done | by (intros a b d Hab Hbd; etrans) | | | | | done].
  - intros a b ->. done.
  - done.
  - apply processQuestion_calls_prefix.
  - intros id' o st''. by rewrite settle_calls.
Qed.

Lemma fmap_question_alter (f : QuestionResult → QuestionResult) (i : nat)
    (qs : list QuestionResult) :
  (∀ q, question (f q) = question q) →
  question <$> alter f i qs = question <$> qs.
Proof.
  intros Hf. rewrite (list_fmap_alter question f id) by (by apply Forall_true).
  by apply list_alter_id.
Qed.

(** X8: only typing changes the text of a question: whatever else happens
    (keys added or deleted, slots run, calls settled, run all), every slot
    keeps its question. *)
Theorem questions_change_only_by_typing (es : list event) (st : Home) :
  Forall (λ e, ∀ i t, e ≠ TypeQuestion i t) es →
  question <$> questions (run es st) = question <$> questions st.
Proof.
  intros Hes.
  apply (run_rel (λ a b, question <$> questions b = question <$> questions a)
           (λ e, ∀ i t, e ≠ TypeQuestion i t));
    [done | by (intros a b d Hab Hbd; rewrite Hbd) | | done].
  intros st' e He.
  apply (step_rel (λ a b, question <$> questions b = question <$> questions a)
           (λ e, ∀ i t, e ≠ TypeQuestion i t));
    [done | by (intros a b d Hab Hbd; rewrite Hbd) | | | | | done].
  - intros a b _ ->. done.
  - intros i t a Hne. by destruct (Hne i t).
  - intros i a. unfold processQuestion. destruct (questions a !! i); [| done].
    case_match; simpl; by apply fmap_question_alter.
  - intros id o a. unfold settle. repeat case_match; try done. simpl.
    apply fmap_question_alter. intros q. unfold finish.
    destruct o; simpl; try done. by destruct (JSON_parse _).
Qed.

(** ** What every page of a session keeps *)

Lemma alter_lookup_inv (f : QuestionResult → QuestionResult) (i j : nat)
    (qs : list QuestionResult) (q' : QuestionResult) :
  alter f i qs !! j = Some q' →
  ∃ q, qs !! j = Some q ∧ ((j = i ∧ q' = f q) ∨ (j ≠ i ∧ q' = q)).
Proof.
  destruct (decide (j = i)) as [-> | Hne].
  - rewrite list_lookup_alter_eq. intros (q & Hq & ->)%fmap_Some. eauto.
  - rewrite list_lookup_alter_ne by done. eauto.
Qed.

Lemma orderly_frame (st st' : Home) :
  pending st' = pending st → calls st' = calls st → questions st' = questions st →
  NoDup (apiKeys st') → orderly st → orderly st'.
Proof.
  unfold orderly, loading_has_call. intros -> -> -> Hk (? & _ & ? & ? & ?). done.
Qed.

Lemma orderly_alter (f : QuestionResult → QuestionResult) (j : nat) (st : Home) :
  (∀ q, isLoading (f q) = isLoading q) →
  (∀ q, questions st !! j = Some q → slot_ok q → slot_ok (f q)) →
  orderly st → orderly (setQuestions (alter f j (questions st)) st).
Proof.
  intros Hl Hok (Hlen & Hk & Hp & Hload & Hslots). split_and!; simpl; try done.
  - by rewrite length_alter.
  - intros i q' (q & Hq & [[-> ->] | [_ ->]])%alter_lookup_inv Hq'; [| eauto].
    rewrite Hl in Hq'. eauto.
  - by apply Forall_alter.
Qed.

Lemma slot_ok_checked (q : QuestionResult) :
  isLoading q = false → slot_ok (with_error (Some MSG_REQUIRED) q).
Proof. intros Hl. split; simpl; [by rewrite Hl | done]. Qed.

Lemma slot_ok_begin_run (q : QuestionResult) : slot_ok (begin_run q).
Proof. split; simpl; [done | by intros []]. Qed.

Lemma slot_ok_finish (o : outcome) (q : QuestionResult) :
  isLoading q = true → slot_ok q → slot_ok (finish o q).
Proof.
  intros Hl [Hq _]. destruct (Hq Hl) as [Hr He]. unfold finish.
  split; [done |].
  destruct o as [responseText | message |]; simpl.
  - destruct (JSON_parse _); simpl; [by intros _ [] | rewrite Hr; by intros []].
  - rewrite Hr. by intros [].
  - rewrite Hr. by intros [].
Qed.

Lemma pending_below_calls (st : Home) (id : nat) :
  flights st → id ∈ pending st → id < length (calls st).
Proof.
  intros [Hshown _] Hin. destruct (Hshown id Hin) as (c & _ & Hc & _).
  by apply lookup_lt_Some in Hc.
Qed.

Lemma orderly_processQuestion (i : nat) (st : Home) :
  flights st → orderly st →
  (∀ q, questions st !! i = Some q → isLoading q = false) →
  orderly (fst (processQuestion i st)).
Proof.
  intros Hfl Hord Hidle. unfold processQuestion.
  destruct (questions st !! i) as [q |] eqn:Hq; [| done].
  case_match; simpl.
  - apply orderly_alter; [done | | done].
    intros q0 Hq0 _. apply slot_ok_checked. rewrite Hq in Hq0. injection Hq0 as <-.
    by apply Hidle.
  - destruct Hord as (Hlen & Hk & Hp & Hload & Hslots). split_and!; simpl; try done.
    + by rewrite length_alter.
    + apply NoDup_app. split_and!; [done | | apply NoDup_singleton].
      intros id Hin ->%list_elem_of_singleton.
      pose proof (pending_below_calls st _ Hfl Hin). lia.
    + intros j q' (q0 & Hq0 & [[-> ->] | [Hne ->]])%alter_lookup_inv Hl.
      * exists (length (calls st)). eexists. split_and!.
        -- apply elem_of_app. right. by apply list_elem_of_singleton.
        -- by apply list_lookup_middle.
        -- done.
      * destruct (Hload j q0 Hq0 Hl) as (id & c & Hin & Hc & Hi).
        exists id, c. split_and!; [apply elem_of_app; by left | | done].
        by apply lookup_app_l_Some.
    + apply Forall_alter; [done |]. intros q0 _ _. apply slot_ok_begin_run.
Qed.

Lemma orderly_settle (id : nat) (o : outcome) (st : Home) :
  flights st → orderly st → orderly (settle id o st).
Proof.
  intros [Hshown Hone] (Hlen & Hk & Hp & Hload & Hslots). unfold settle.
  case_bool_decide as Hin; [| done].
  destruct (calls st !! id) as [c |] eqn:Hc; [| done].
  destruct (Hshown id Hin) as (c0 & q & Hc0 & Hq & Hl).
  rewrite Hc in Hc0. injection Hc0 as <-.
  split_and!; simpl; try done.
  - by rewrite length_alter.
  - by apply NoDup_filter.
  - intros j q' (q0 & Hq0 & [[-> ->] | [Hne ->]])%alter_lookup_inv Hl'; [done |].
    destruct (Hload j q0 Hq0 Hl') as (id' & c' & Hin' & Hc' & Hi).
    exists id', c'. split_and!; [| done | done].
    apply list_elem_of_filter. split; [| done]. intros ->.
    rewrite Hc in Hc'. injection Hc' as <-. done.
  - apply Forall_alter; [done |]. intros q0 Hq0 Hok. rewrite Hq in Hq0.
    injection Hq0 as <-. by apply slot_ok_finish.
Qed.

Lemma orderly_submit_each (indices : list nat) :
  ∀ st, NoDup indices → flights st → orderly st →
        (∀ i q, i ∈ indices → questions st !! i = Some q → isLoading q = false) →
        orderly (fst (submit_each indices st)).
Proof.
  induction indices as [| i rest IH]; intros st Hnd Hfl Hord Hidle; [done |].
  apply NoDup_cons in Hnd as [Hi Hnd]. rewrite submit_each_cons.
  destruct (has_question i st).
  - apply IH; [done | | |].
    + apply flights_processQuestion; [done |]. intros q. apply Hidle. left.
    + apply orderly_processQuestion; [done | done |]. intros q. apply Hidle. left.
    + intros j q Hj. rewrite processQuestion_other by (intros ->; done).
      apply Hidle. by right.
  - apply IH; [done | done | done |]. intros j q Hj. apply Hidle. by right.
Qed.

Lemma orderly_step (st : Home) (e : event) :
  consistent st → orderly st → enabled st e = true → orderly (step st e).
Proof.
  intros [Hfl _] Hord Hen.
  assert (NoDup (apiKeys st)) as Hk by apply Hord.
  destruct e; simpl in *.
  - by apply (orderly_frame st).
  - unfold handleAddApiKey. destruct (truthy _); [| done]. case_bool_decide; [done |].
    simpl. apply (orderly_frame st); try done. simpl.
    apply NoDup_app. split_and!; [done | | apply NoDup_singleton].
    intros k Hin ->%list_elem_of_singleton. done.
  - unfold handleDeleteApiKey.
    case_match; apply (orderly_frame st); try done; simpl; by apply NoDup_filter.
  - by apply (orderly_frame st).
  - by apply (orderly_frame st).
  - by apply (orderly_frame st).
  - unfold updateQuestion. by apply orderly_alter.
  - apply orderly_processQuestion; [done | done |]. intros q Hq. rewrite Hq in Hen.
    by apply andb_true_iff in Hen as [_ ?%negb_true_iff].
  - apply negb_true_iff in Hen. unfold handleSubmitAll.
    destruct (negb (truthy (trim (selectedApiKey st)))); simpl;
      [by apply (orderly_frame st) |].
    destruct (Nat.eqb (length _) 0); simpl; [by apply (orderly_frame st) |].
    apply orderly_submit_each; [apply NoDup_seq | done | done |].
    intros i q _. by apply not_loading.
  - by apply orderly_settle.
Qed.

Lemma reachable_orderly (st : Home) : reachable st → orderly st.
Proof.
  induction 1 as [| st e Hr IH Hen].
  - split_and!; [done | apply NoDup_nil_2 | apply NoDup_nil_2 | |].
    + intros i q Hq Hl. exfalso.
      destruct i as [| [| [| [| [| i]]]]]; simpl in Hq; by simplify_eq.
    + repeat constructor; simpl; try done; by intros [].
  - apply orderly_step; [by apply reachable_consistent | done | done].
Qed.

(** X9: the page always has its five slots. *)
Theorem page_always_has_five_slots (st : Home) :
  reachable st → length (questions st) = 5.
Proof. intros H%reachable_orderly. apply H. Qed.

(** X10: on every page of a session the keys are trimmed, not empty and
    all different, and the selected key is one of them or empty. *)
Theorem page_keys_are_trimmed_and_distinct (st : Home) :
  reachable st →
  NoDup (apiKeys st)
  ∧ (∀ k, k ∈ apiKeys st → trim k = k ∧ k ≠ "")
  ∧ (selectedApiKey st = "" ∨ selectedApiKey st ∈ apiKeys st).
Proof.
  intros Hr. pose proof (reachable_orderly st Hr) as (_ & Hk & _).
  pose proof (reachable_consistent st Hr) as (_ & Ht & Hs). done.
Qed.

(** X11: on every page of a session a slot is loading exactly when a call
    made for it is awaited, and no slot has two awaited calls. *)
Theorem page_loading_iff_call_awaited (st : Home) (i : nat) (q : QuestionResult) :
  reachable st → questions st !! i = Some q →
  (isLoading q = true
   ↔ ∃ id c, id ∈ pending st ∧ calls st !! id = Some c ∧ call_index c = i)
  ∧ (∀ id id' c c', id ∈ pending st → id' ∈ pending st →
       calls st !! id = Some c → calls st !! id' = Some c' →
       call_index c = i → call_index c' = i → id = id').
Proof.
  intros Hr Hq. pose proof (reachable_orderly st Hr) as (_ & _ & _ & Hload & _).
  pose proof (reachable_consistent st Hr) as ([Hshown Hone] & _).
  split; [split |].
  - by apply Hload.
  - intros (id & c & Hin & Hc & Hi). destruct (Hshown id Hin) as (c' & q' & Hc' & Hq' & Hl).
    rewrite Hc in Hc'. injection Hc' as <-. rewrite Hi, Hq in Hq'. by injection Hq' as <-.
  - intros id id' c c' Hin Hin' Hc Hc' Hi Hi'. apply (Hone id id' c c'); try done.
    by rewrite Hi, Hi'.
Qed.

(** X12: on every page of a session a slot that is loading shows neither
    a result nor an error. *)
Theorem page_loading_slot_shows_nothing (st : Home) (i : nat) (q : QuestionResult) :
  reachable st → questions st !! i = Some q → isLoading q = true →
  result q = None ∧ error q = None.
Proof.
  intros Hr Hq Hl. pose proof (reachable_orderly st Hr) as (_ & _ & _ & _ & Hslots).
  by apply (Forall_lookup_1 _ _ _ _ Hslots Hq).
Qed.

(** X13: on every page of a session a slot can show a result and an error
    at once only when the error is the message of the check: a run that
    fails leaves no result, and a run that succeeds leaves no error. *)
Theorem page_result_beside_error_only_from_check
  (st : Home) (i : nat) (q : QuestionResult) (r : json) (e : string) :
  reachable st → questions st !! i = Some q →
  result q = Some r → error q = Some e → e = MSG_REQUIRED.
Proof.
  intros Hr Hq Hres Herr.
  pose proof (reachable_orderly st Hr) as (_ & _ & _ & _ & Hslots).
  destruct (Forall_lookup_1 _ _ _ _ Hslots Hq) as [_ H].
  rewrite Herr in H. assert (Some e = Some MSG_REQUIRED) as [= ->]; [| done].
  apply H; [rewrite Hres |]; by eexists.
Qed.

(** X14: on every page of a session, when the run-all button can be
    pressed no call is awaited: run all never starts beside a call in
    flight. *)
Theorem page_run_all_enabled_only_when_nothing_awaited (st : Home) :
  reachable st → enabled st Submit = true → pending st = [].
Proof.
  intros Hr. pose proof (reachable_consistent st Hr) as ([Hshown _] & _). simpl.
  rewrite negb_true_iff. intros Hex.
  destruct (pending st) as [| id ids] eqn:Hp; [done |]. exfalso.
  destruct (Hshown id) as (c & q & _ & Hq & Hl); [rewrite Hp; left |].
  by rewrite (existsb_lookup isLoading _ _ q Hq Hl) in Hex.
Qed.

(** ** Run all on any board *)

Lemma submit_each_snd_cons (index : nat) (rest : list nat) (st : Home) :
  snd (submit_each (index :: rest) st)
  = (if has_question index st then snd (processQuestion index st) else Fulfilled)
    :: snd (submit_each rest
              (if has_question index st then fst (processQuestion index st) else st)).
Proof.
  simpl. destruct (has_question index st).
  - destruct (processQuestion index st) as [st1 p]. simpl.
    by destruct (submit_each rest st1).
  - by destruct (submit_each rest st).
Qed.

Lemma has_question_Some (st : Home) (i : nat) :
  has_question i st = true ↔ ∃ q, questions st !! i = Some q ∧ trim (question q) ≠ "".
Proof.
  unfold has_question. destruct (questions st !! i) as [q |].
  - rewrite truthy_true. split; [eauto |]. by intros (q' & [= <-] & ?).
  - split; [done |]. by intros (q' & ? & _).
Qed.

Lemma has_question_started (st : Home) (i : nat) (c : Call) (j : nat) :
  has_question j (generateContent c (setQuestions (alter begin_run i (questions st)) st))
  = has_question j st.
Proof.
  unfold has_question. simpl. rewrite list_lookup_alter. case_decide; [subst |]; [| done].
  by destruct (questions st !! j).
Qed.

Lemma call_for_started (st : Home) (i : nat) (c : Call) (j : nat) :
  call_for (generateContent c (setQuestions (alter begin_run i (questions st)) st)) j
  = call_for st j.
Proof.
  unfold call_for. simpl. rewrite list_lookup_alter. case_decide; [subst |]; [| done].
  by destruct (questions st !! j).
Qed.

Lemma submit_each_spec (indices : list nat) :
  ∀ st, trim (selectedApiKey st) ≠ "" → NoDup indices →
    let st' := fst (submit_each indices st) in
    let filled := filter (λ i, has_question i st = true) indices in
    calls st' = (calls st ++ (call_for st <$> filled))%list
    ∧ pending st' = (pending st ++ seq (length (calls st)) (length filled))%list
    ∧ snd (submit_each indices st)
      = promises_from (length (calls st)) ((λ i, has_question i st) <$> indices)
    ∧ (∀ j q, questions st !! j = Some q →
         questions st' !! j
         = Some (if bool_decide (j ∈ indices) && truthy (trim (question q))
                 then begin_run q else q))
    ∧ alerts st' = alerts st ∧ apiKeys st' = apiKeys st
    ∧ selectedApiKey st' = selectedApiKey st.
Proof.
  induction indices as [| i rest IH]; intros st Hk Hnd.
  { simpl. rewrite !app_nil_r. split_and!; try done. }
  apply NoDup_cons in Hnd as [Hi Hnd]. cbv zeta.
  rewrite submit_each_cons, submit_each_snd_cons, fmap_cons.
  destruct (has_question i st) eqn:Hq.
  - apply has_question_Some in Hq as Hq'. destruct Hq' as (q & Hlook & Ht).
    rewrite (processQuestion_start st i q Hlook Hk Ht).
    set (c := {| call_index := i; call_apiKey := selectedApiKey st;
                 call_question := question q |}).
    change (fst (?a, ?b)) with a. change (snd (?a, ?b)) with b.
    set (st1 := generateContent c (setQuestions (alter begin_run i (questions st)) st)).
    destruct (IH st1 Hk Hnd) as (Hc & Hp & Hps & Hqs & Ha & Hks & Hs).
    assert (∀ j, has_question j st1 = has_question j st) as Hh
      by (intros j; apply has_question_started).
    assert (filter (λ j, has_question j st1 = true) rest
            = filter (λ j, has_question j st = true) rest) as Ef
      by (apply list_filter_iff; intros j; by rewrite Hh).
    assert (c = call_for st i) as Ec by (unfold call_for; by rewrite Hlook).
    rewrite filter_cons_True by done. rewrite Ef in Hc, Hp.
    split_and!.
    + rewrite Hc. simpl. rewrite <- app_assoc. simpl. f_equal. f_equal; [done |].
      apply list_fmap_ext. intros _ j _. apply call_for_started.
    + rewrite Hp. simpl. rewrite length_app. simpl.
      rewrite <- app_assoc. simpl. by rewrite Nat.add_1_r.
    + rewrite Hps. simpl. rewrite length_app, Nat.add_1_r. simpl. f_equal. f_equal.
      apply list_fmap_ext. intros _ j _. apply Hh.
    + intros j q0 Hq0. destruct (decide (j = i)) as [-> | Hne].
      * rewrite Hlook in Hq0. injection Hq0 as <-.
        rewrite (Hqs i (begin_run q)) by (simpl; by rewrite list_lookup_alter_eq, Hlook).
        rewrite (bool_decide_eq_false_2 _ Hi), (bool_decide_eq_true_2 (i ∈ i :: rest))
          by left.
        simpl. apply truthy_true in Ht. by rewrite Ht.
      * rewrite (Hqs j q0) by (simpl; by rewrite list_lookup_alter_ne).
        by rewrite (bool_decide_ext (j ∈ i :: rest) (j ∈ rest))
          by (rewrite elem_of_cons; split; [by intros [? | ?] | by right]).
    + done.
    + done.
    + done.
  - destruct (IH st Hk Hnd) as (Hc & Hp & Hps & Hqs & Ha & Hks & Hs).
    rewrite filter_cons_False by (by rewrite Hq).
    split_and!; try done.
    + by rewrite Hps.
    + intros j q0 Hq0. rewrite (Hqs j q0 Hq0). destruct (decide (j = i)) as [-> | Hne].
      * rewrite (bool_decide_eq_false_2 _ Hi). simpl.
        unfold has_question in Hq. rewrite Hq0 in Hq. rewrite Hq.
        by rewrite andb_false_r.
      * by rewrite (bool_decide_ext (j ∈ i :: rest) (j ∈ rest))
          by (rewrite elem_of_cons; split; [by intros [? | ?] | by right]).
Qed.

(** X15: with a key selected and at least one question filled in,
    [handleSubmitAll] runs every slot whose trimmed question is not empty,
    in the order of the slots: it logs one call for each, with the selected
    key and the slot's question, sets each of these slots loading with
    result and error cleared, leaves every other slot as it is, shows no
    alert, and awaits one promise for each slot. *)
Theorem submit_all_runs_every_filled_slot (st : Home) :
  trim (selectedApiKey st) ≠ "" →
  (∃ i q, questions st !! i = Some q ∧ trim (question q) ≠ "") →
  let st' := fst (handleSubmitAll st) in
  let slots := seq 0 (length (questions st)) in
  let filled := filter (λ i, has_question i st = true) slots in
  calls st' = (calls st ++ (call_for st <$> filled))%list
  ∧ pending st' = (pending st ++ seq (length (calls st)) (length filled))%list
  ∧ snd (handleSubmitAll st)
    = promises_from (length (calls st)) ((λ i, has_question i st) <$> slots)
  ∧ (∀ j q, questions st !! j = Some q →
       questions st' !! j
       = Some (if truthy (trim (question q)) then begin_run q else q))
  ∧ alerts st' = alerts st ∧ apiKeys st' = apiKeys st
  ∧ selectedApiKey st' = selectedApiKey st.
Proof.
  intros Hk (i & q & Hq & Ht). unfold handleSubmitAll.
  apply truthy_true in Hk as Hk'. rewrite Hk'. simpl.
  assert (q ∈ filter (λ q, truthy (trim (question q)) = true) (questions st)) as Hin.
  { apply list_elem_of_filter. split; [by apply truthy_true |].
    apply list_elem_of_lookup. eauto. }
  destruct (filter _ (questions st)) as [| q0 l] eqn:E; [by apply elem_of_nil in Hin |].
  simpl.
  destruct (submit_each_spec (seq 0 (length (questions st))) st Hk (NoDup_seq _ _))
    as (Hc & Hp & Hps & Hqs & Ha & Hks & Hs).
  split_and!; try done.
  intros j q1 Hq1. rewrite (Hqs j q1 Hq1). rewrite bool_decide_eq_true_2; [done |].
  apply elem_of_seq. apply lookup_lt_Some in Hq1. lia.
Qed.

(** *** The join on any board *)

Lemma processQuestion_pending (st : Home) (i id : nat) :
  is_Some (calls st !! id) →
  id ∈ pending (fst (processQuestion i st)) ↔ id ∈ pending st.
Proof.
  intros Hc%lookup_lt_is_Some. unfold processQuestion.
  destruct (questions st !! i); [| done]. case_match; simpl; [done |].
  rewrite elem_of_app, list_elem_of_singleton. split; [| by left].
  intros [? | ->]; [done | lia].
Qed.

Lemma settle_pending_other (id id' : nat) (o : outcome) (st : Home) :
  id ≠ id' → id ∈ pending (settle id' o st) ↔ id ∈ pending st.
Proof.
  intros Hne. unfold settle. case_bool_decide; [| done].
  destruct (calls st !! id'); [| done]. simpl. rewrite list_elem_of_filter.
  split; [by intros [_ ?] | done].
Qed.

Lemma submit_each_pending (indices : list nat) (st : Home) (id : nat) :
  is_Some (calls st !! id) →
  id ∈ pending (fst (submit_each indices st)) ↔ id ∈ pending st.
Proof.
  intros Hc.
  apply (submit_each_rel
           (λ a b, is_Some (calls a !! id) →
                   is_Some (calls b !! id) ∧ (id ∈ pending b ↔ id ∈ pending a)));
    [done | | | done].
  - intros a b d Hab Hbd Ha. destruct (Hab Ha) as [Hb Hiff].
    destruct (Hbd Hb) as [Hd Hiff']. split; [done |]. by rewrite Hiff'.
  - intros i a Ha. split; [| by apply processQuestion_pending].
    destruct Ha as [c Ha]. exists c.
    by apply (prefix_lookup_Some _ _ _ _ Ha), processQuestion_calls_prefix.
Qed.

(** A call that was made stays awaited until it settles, and is not
    awaited again afterwards. *)
Lemma pending_step (st : Home) (e : event) (id : nat) :
  is_Some (calls st !! id) →
  id ∈ pending (step st e) ↔ id ∈ pending st ∧ settles id [e] = false.
Proof.
  intros Hc.
  assert (∀ P : Prop, P ↔ P ∧ false = false) as Hand by (intros P; split; [done | by intros []]).
  destruct e as [raw | | | key | | | i t | i | | id' o]; unfold settles; simpl;
    try exact (Hand _).
  - etrans; [| apply Hand]. unfold handleAddApiKey. by case_match.
  - etrans; [| apply Hand]. unfold handleDeleteApiKey. by case_match.
  - etrans; [| apply Hand]. by apply processQuestion_pending.
  - etrans; [| apply Hand]. unfold handleSubmitAll. repeat case_match; try done.
    by apply submit_each_pending.
  - rewrite orb_false_r. destruct (decide (id = id')) as [<- | Hne].
    + rewrite settle_pending by done. rewrite Nat.eqb_refl. split; [by intros [] | by intros []].
    + rewrite settle_pending_other by done.
      rewrite (proj2 (Nat.eqb_neq id' id)) by done. apply Hand.
Qed.

Lemma pending_run (es : list event) :
  ∀ st id, is_Some (calls st !! id) →
           id ∈ pending (run es st) ↔ id ∈ pending st ∧ settles id es = false.
Proof.
  induction es as [| e es IH]; intros st id Hc.
  - simpl. split; [done | by intros []].
  - rewrite run_cons, IH, pending_step by
      (try done; destruct Hc as [c Hc]; exists c;
       by apply (prefix_lookup_Some _ _ _ _ Hc), step_calls_prefix).
    unfold settles. simpl. rewrite orb_false_r, orb_false_iff.
    split; [by intros [[? ?] ?] | by intros [? [? ?]]].
Qed.

Lemma submit_each_awaits (indices : list nat) :
  ∀ st id, Awaits id ∈ snd (submit_each indices st) →
           id ∈ pending (fst (submit_each indices st))
           ∧ is_Some (calls (fst (submit_each indices st)) !! id).
Proof.
  induction indices as [| i rest IH]; intros st id Hin; [by apply elem_of_nil in Hin |].
  rewrite submit_each_snd_cons in Hin. rewrite submit_each_cons.
  apply elem_of_cons in Hin as [Hp | Hin]; [| by apply IH].
  destruct (has_question i st); [| done].
  unfold processQuestion in *. destruct (questions st !! i) as [q |]; [| done].
  destruct (negb _ || negb _); [done |]. simpl in Hp. injection Hp as ->.
  simpl.
  match goal with |- context [submit_each rest ?s] => set (st1 := s) end.
  assert (is_Some (calls st1 !! length (calls st))) as Hc
    by (eexists; by apply list_lookup_middle).
  split.
  - apply submit_each_pending; [done |]. simpl.
    apply elem_of_app. right. by apply list_elem_of_singleton.
  - destruct Hc as [c Hc]. exists c. apply (prefix_lookup_Some _ _ _ _ Hc).
    apply (submit_each_rel (λ a b, calls a `prefix_of` calls b));
      [done | by (intros a b d Hab Hbd; etrans) | apply processQuestion_calls_prefix].
Qed.

Lemma submit_each_calls_grow (indices : list nat) (st : Home) :
  (length (calls st) ≤ length (calls (fst (submit_each indices st))))%nat.
Proof.
  apply prefix_length.
  apply (submit_each_rel (λ a b, calls a `prefix_of` calls b));
    [done | by (intros a b d Hab Hbd; etrans) | apply processQuestion_calls_prefix].
Qed.

(** The promises that wait are those of the calls made, one for one. *)
Lemma submit_each_awaits_its_calls (indices : list nat) :
  ∀ st id, Awaits id ∈ snd (submit_each indices st)
           ↔ (length (calls st) ≤ id < length (calls (fst (submit_each indices st))))%nat.
Proof.
  induction indices as [| i rest IH]; intros st id.
  { simpl. split; [by intros ?%elem_of_nil | lia]. }
  rewrite submit_each_snd_cons, submit_each_cons, elem_of_cons.
  destruct (has_question i st); [| rewrite IH; split; [by intros [? | ?] | by right]].
  unfold processQuestion. destruct (questions st !! i) as [q |];
    [| simpl; rewrite IH; split; [by intros [? | ?] | by right]].
  destruct (negb _ || negb _); simpl;
    [rewrite IH; simpl; split; [by intros [? | ?] | by right] |].
  match goal with |- context [submit_each rest ?s] => set (st1 := s) end.
  pose proof (submit_each_calls_grow rest st1) as Hg.
  assert (length (calls st1) = S (length (calls st))) as Hl
    by (subst st1; simpl; rewrite length_app; simpl; lia).
  rewrite IH, Hl. rewrite Hl in Hg. split.
  - intros [[= ->] | ?]; lia.
  - intros [H1 H2]. destruct (decide (id = length (calls st))) as [-> | Hne];
      [by left | right; lia].
Qed.

(** X16: on any board, the join of [handleSubmitAll] is over exactly when
    every call that [handleSubmitAll] itself made has settled, whatever
    else happens on the page in between (other runs, edits, keys): the
    log of calls is only extended, so the calls it made are those past
    the old end of the log; the promises that wait are those of the calls
    it made, one for one, and each of these calls is awaited when the
    handler returns.  When it returns early it has made no call and
    awaits no promise. *)
Theorem submit_all_joins_its_own_calls (st : Home) (es : list event) :
  let st1 := fst (handleSubmitAll st) in
  let ps := snd (handleSubmitAll st) in
  (all_resolved (run es st1) ps = true
   ↔ ∀ id, (length (calls st) ≤ id < length (calls st1))%nat → settles id es = true)
  ∧ calls st `prefix_of` calls st1
  ∧ (∀ id, Awaits id ∈ ps ↔ (length (calls st) ≤ id < length (calls st1))%nat)
  ∧ (∀ id, (length (calls st) ≤ id < length (calls st1))%nat → id ∈ pending st1)
  ∧ (truthy (trim (selectedApiKey st)) = false
     ∨ filter (λ q, truthy (trim (question q)) = true) (questions st) = [] →
     ps = [] ∧ calls st1 = calls st).
Proof.
  cbv zeta.
  assert (∀ id, Awaits id ∈ snd (handleSubmitAll st) →
            id ∈ pending (fst (handleSubmitAll st))
            ∧ is_Some (calls (fst (handleSubmitAll st)) !! id)) as Haw.
  { intros id. unfold handleSubmitAll. repeat case_match; simpl;
      try (by intros ?%elem_of_nil). apply submit_each_awaits. }
  assert (∀ id, Awaits id ∈ snd (handleSubmitAll st)
                ↔ (length (calls st) ≤ id < length (calls (fst (handleSubmitAll st))))%nat)
    as Hiff.
  { intros id. unfold handleSubmitAll. repeat case_match; simpl;
      try (split; [by intros ?%elem_of_nil | lia]). apply submit_each_awaits_its_calls. }
  split_and!.
  - unfold all_resolved. rewrite forallb_forall. split.
    + intros H id Hin%Hiff. destruct (Haw id Hin) as [Hp Hc].
      apply list_elem_of_In, H in Hin. simpl in Hin.
      apply negb_true_iff, bool_decide_eq_false in Hin.
      destruct (settles id es) eqn:Hs; [done |]. exfalso. apply Hin.
      by apply pending_run.
    + intros H p Hin%list_elem_of_In. destruct p as [| | id]; [done | done |]. simpl.
      apply negb_true_iff, bool_decide_eq_false.
      destruct (Haw id Hin) as [Hp Hc]. rewrite pending_run by done.
      intros [_ Hs]. rewrite (H id) in Hs; [done | by apply Hiff].
  - unfold handleSubmitAll. repeat case_match; simpl; try done.
    apply (submit_each_rel (λ a b, calls a `prefix_of` calls b));
      [done | by (intros a b d Hab Hbd; etrans) | apply processQuestion_calls_prefix].
  - done.
  - intros id Hin%Hiff. by apply Haw.
  - unfold handleSubmitAll. intros [-> | ->]; simpl; [done |].
    by destruct (negb _).
Qed.

(** ** What the service is never asked *)

Lemma proper_calls_step (st : Home) (e : event) :
  length (questions st) = 5 → Forall proper_call (calls st) →
  length (questions (step st e)) = 5 ∧ Forall proper_call (calls (step st e)).
Proof.
  apply (step_rel
           (λ a b, length (questions a) = 5 → Forall proper_call (calls a) →
                   length (questions b) = 5 ∧ Forall proper_call (calls b))
           (λ _, True)); [done | | | | | | done].
  - intros a b d Hab Hbd Hl Hc. destruct (Hab Hl Hc). by apply Hbd.
  - intros a b -> ->. done.
  - intros i t a _ Hl Hc. simpl. by rewrite length_alter.
  - intros i a Hl Hc. unfold processQuestion.
    destruct (questions a !! i) as [q |] eqn:Hq; [| done].
    destruct (truthy (trim (selectedApiKey a))) eqn:Hk; simpl;
      [| by rewrite length_alter].
    destruct (truthy (trim (question q))) eqn:Ht; simpl; rewrite length_alter;
      [| done].
    split; [done |]. apply Forall_app. split; [done |].
    apply Forall_singleton. split_and!; simpl.
    + by apply truthy_true.
    + by apply truthy_true.
    + apply lookup_lt_Some in Hq. lia.
  - intros id o a Hl Hc. unfold settle. repeat case_match; try done. simpl.
    by rewrite length_alter.
Qed.

(** X17: on every page of a session, every call in the log was made with
    a key and a question that are not blank (after trimming), for one of
    the five slots: the service is never asked with an empty key or an
    empty question. *)
Theorem page_never_calls_with_blank_key_or_question (st : Home) (id : nat) (c : Call) :
  reachable st → calls st !! id = Some c →
  trim (call_apiKey c) ≠ "" ∧ trim (call_question c) ≠ "" ∧ call_index c < 5.
Proof.
  intros Hr Hc.
  assert (length (questions st) = 5 ∧ Forall proper_call (calls st)) as [_ H].
  { clear Hc. induction Hr as [| st e _ [Hl Hcs] _]; [by split |].
    by apply proper_calls_step. }
  by apply (Forall_lookup_1 _ _ _ _ H Hc).
Qed.

End Engine.

(** ** Instances *)

Lemma C8_witness :
  apiKeys initial = []
  ∧ NoDup (apiKeys (addAll [" k1 "; "k2"; "k1"; "  "; "k2 "] initial))
  ∧ apiKeys (addAll [" k1 "; "k2"; "k1"; "  "; "k2 "] initial) = ["k1"; "k2"].
Proof.
  split; [reflexivity |].
  destruct (C8_addCredential_unique_in_first_insertion_order
              [" k1 "; "k2"; "k1"; "  "; "k2 "] initial eq_refl) as (H1 & H2 & _).
  split; [exact H1 | exact H2].
Defined.

Lemma C10_witness :
  "b" ∈ apiKeys three_keys ∧ "b" ≠ selectedApiKey three_keys
  ∧ apiKeys (handleDeleteApiKey "b" three_keys) = ["a"; "c"]
  ∧ selectedApiKey (handleDeleteApiKey "b" three_keys) = "a".
Proof.
  assert ("b" ∈ apiKeys three_keys) as Hin by (apply list_elem_of_In; simpl; tauto).
  assert ("b" ≠ selectedApiKey three_keys) as Hne by discriminate.
  destruct (C10_delete_other_keeps_selection three_keys "b" Hin Hne)
    as (_ & _ & _ & _ & Hs & _).
  split_and!; [exact Hin | exact Hne | reflexivity | exact Hs].
Defined.

Lemma C3_witness :
  questions initial !! 0 = Some (blank "J.K. 롤링의 해리포터 찾아줘.")
  ∧ trim (selectedApiKey initial) = ""
  ∧ calls (fst (processQuestion 0 initial)) = []
  ∧ ∃ q', questions (fst (processQuestion 0 initial)) !! 0 = Some q'
      ∧ error q' = Some MSG_REQUIRED ∧ isLoading q' = false.
Proof.
  destruct (C3_guard_sets_error_without_call initial 0
              (blank "J.K. 롤링의 해리포터 찾아줘.") eq_refl (or_introl eq_refl))
    as (Hc & _ & _ & (q' & Hq & He & Hl & _) & _).
  split_and!; [reflexivity | reflexivity | exact Hc |].
  exists q'. split_and!; [exact Hq | exact He | exact Hl].
Defined.

Lemma C5_witness :
  trim (selectedApiKey initial) = ""
  ∧ calls (fst (handleSubmitAll initial)) = calls initial
  ∧ questions (fst (handleSubmitAll initial)) = questions initial
  ∧ snd (handleSubmitAll initial) = [].
Proof.
  destruct (C5_submit_all_refused initial (or_introl eq_refl)) as (Hc & _ & Hq & Hp & _).
  split_and!; [reflexivity | exact Hc | exact Hq | exact Hp].
Defined.

Lemma C4_witness :
  selectedApiKey two_queries = "k1"
  ∧ question <$> questions two_queries = ["query A"; ""; "query B"; ""; ""]
  ∧ length (calls (fst (handleSubmitAll two_queries))) = 2
  ∧ all_resolved
      (run engine_message [Settle 1 ThrewOther] (fst (handleSubmitAll two_queries)))
      (snd (handleSubmitAll two_queries)) = false
  ∧ all_resolved
      (run engine_message [Settle 1 ThrewOther; Settle 0 (Responded harry_potter_answer)]
         (fst (handleSubmitAll two_queries)))
      (snd (handleSubmitAll two_queries)) = true.
Proof.
  destruct (C4_submit_all_fans_out_and_joins engine_message two_queries eq_refl eq_refl)
    as (Hc & _ & _ & _ & Hes).
  split_and!; [reflexivity | reflexivity | by rewrite Hc | |].
  - destruct (Hes [Settle 1 ThrewOther]) as (_ & _ & ->); [| reflexivity].
    repeat constructor. exists ThrewOther. by right.
  - destruct (Hes [Settle 1 ThrewOther; Settle 0 (Responded harry_potter_answer)])
      as (_ & _ & ->); [| reflexivity].
    repeat constructor.
    + exists ThrewOther. by right.
    + exists (Responded harry_potter_answer). by left.
Defined.


Lemma C7_witness :
  0 ∈ pending (fst (processQuestion 0 with_key))
  ∧ calls (fst (processQuestion 0 with_key)) !! 0
    = Some {| call_index := 0; call_apiKey := "k1";
              call_question := "J.K. 롤링의 해리포터 찾아줘." |}
  ∧ questions (settle engine_message 0 (Responded "Sorry, no book found.")
                 (fst (processQuestion 0 with_key))) !! 0
    = Some {| question := "J.K. 롤링의 해리포터 찾아줘."; result := None;
              error := Some "Unexpected token"; isLoading := false |}.
Proof.
  assert (0 ∈ pending (fst (processQuestion 0 with_key))) as Hp by apply list_elem_of_here.
  split_and!; [exact Hp | reflexivity |].
  exact (C7_only_malformed_json_is_an_error engine_message
           (fst (processQuestion 0 with_key)) 0 _ _ "Sorry, no book found."
           Hp eq_refl eq_refl).
Defined.

(** The opening fence of [untagged_answer] is not removed, and the text
    that is left is not JSON, although the text between the fences is. *)
Lemma C6_untagged_fence_is_kept :
  cleanJsonStr untagged_answer = "```" ++ nl ++ "{}"
  ∧ cleanJsonStr untagged_answer ≠ "{}"
  ∧ JSON_parse engine_message (cleanJsonStr untagged_answer) = inr "Unexpected token"
  ∧ JSON_parse engine_message "{}" = inl (JObject []).
Proof. split_and!; [reflexivity | discriminate | reflexivity | reflexivity]. Qed.

(** The answer [{}] has none of the six fields, yet it is stored as the
    [result] of the slot and no error is shown. *)
Lemma C7_wrong_shape_is_stored :
  BookInfo_shape (JObject []) = false
  ∧ questions (settle engine_message 0 (Responded "{}")
                 (fst (processQuestion 0 with_key))) !! 0
    = Some {| question := "J.K. 롤링의 해리포터 찾아줘."; result := Some (JObject []);
              error := None; isLoading := false |}.
Proof. split; reflexivity. Qed.

(** ** Instances of the further properties *)

Lemma to_busy_reachable : reachable engine_message (run engine_message to_busy initial).
Proof.
  apply (reachable_session engine_message to_busy initial);
    [constructor | vm_compute; reflexivity].
Qed.

Lemma rerun_reachable :
  reachable engine_message (run engine_message rerun_without_key initial).
Proof.
  apply (reachable_session engine_message rerun_without_key initial);
    [constructor | vm_compute; reflexivity].
Qed.

Lemma X1_witness :
  has_dollar "J.K. 롤링의 해리포터 찾아줘." = false
  ∧ finalPrompt "J.K. 롤링의 해리포터 찾아줘."
    = PROMPT_HEAD ++ "J.K. 롤링의 해리포터 찾아줘." ++ PROMPT_TAIL.
Proof.
  split; [reflexivity |].
  exact (prompt_holds_question_verbatim "J.K. 롤링의 해리포터 찾아줘." eq_refl).
Defined.

Lemma X2_witness :
  has_dollar "It costs " = false ∧ has_dollar " today" = false
  ∧ finalPrompt ("It costs " ++ "$$" ++ " today")
    = PROMPT_HEAD ++ ("It costs " ++ "$" ++ " today") ++ PROMPT_TAIL.
Proof.
  destruct (prompt_rewrites_dollar_patterns "It costs " " today" eq_refl eq_refl)
    as (H & _).
  split_and!; [reflexivity | reflexivity | exact H].
Defined.

Lemma X4_witness :
  startsWith "```json" (trim "  {} ") = false
  ∧ endsWith "```" (trim "  {} ") = false
  ∧ cleanJsonStr "  {} " = trim "  {} ".
Proof.
  split_and!; [reflexivity | reflexivity |].
  exact (unfenced_answer_is_only_trimmed "  {} " eq_refl eq_refl).
Defined.

Lemma X5_witness :
  trim (newApiKey typing_k2) ≠ ""
  ∧ (trim (newApiKey typing_k2) ∉ apiKeys typing_k2)
  ∧ apiKeys (handleDeleteApiKey (selectedApiKey (handleAddApiKey typing_k2))
               (handleAddApiKey typing_k2)) = ["k1"]
  ∧ selectedApiKey (handleDeleteApiKey (selectedApiKey (handleAddApiKey typing_k2))
                      (handleAddApiKey typing_k2)) = "k1".
Proof.
  assert (trim (newApiKey typing_k2) ≠ "") as Hne by discriminate.
  assert (trim (newApiKey typing_k2) ∉ apiKeys typing_k2) as Hin.
  { change ("k2" ∉ ["k1"]). by intros [=]%list_elem_of_singleton. }
  destruct (add_then_delete_restores_keys_not_selection typing_k2 Hne Hin)
    as (_ & Hk & Hs & _).
  split_and!; [exact Hne | exact Hin | exact Hk | exact Hs].
Defined.

Lemma X6_witness :
  questions with_key !! 0 = Some (blank "J.K. 롤링의 해리포터 찾아줘.")
  ∧ trim (selectedApiKey with_key) ≠ ""
  ∧ trim "J.K. 롤링의 해리포터 찾아줘." ≠ ""
  ∧ calls (settle engine_message 0 (Responded harry_potter_answer)
             (updateQuestion 0 "Dune" (fst (processQuestion 0 with_key)))) !! 0
    = Some {| call_index := 0; call_apiKey := "k1";
              call_question := "J.K. 롤링의 해리포터 찾아줘." |}
  ∧ questions (settle engine_message 0 (Responded harry_potter_answer)
                 (updateQuestion 0 "Dune" (fst (processQuestion 0 with_key)))) !! 0
    = Some {| question := "Dune"; result := Some (BookInfo_json harry_potter);
              error := None; isLoading := false |}.
Proof.
  assert (trim (selectedApiKey with_key) ≠ "") as Hk by discriminate.
  assert (trim "J.K. 롤링의 해리포터 찾아줘." ≠ "") as Ht by discriminate.
  destruct (edit_in_flight_keeps_the_old_call engine_message with_key 0
              (blank "J.K. 롤링의 해리포터 찾아줘.") "Dune"
              (Responded harry_potter_answer) eq_refl Hk Ht) as (Hc & _ & Hq).
  split_and!; [reflexivity | exact Hk | exact Ht | exact Hc | exact Hq].
Defined.

Lemma X8_witness :
  Forall (λ e, ∀ i t, e ≠ TypeQuestion i t) [ClickRun 0; Settle 0 ThrewOther; Submit]
  ∧ question <$> questions (run engine_message [ClickRun 0; Settle 0 ThrewOther; Submit]
                              with_key)
    = question <$> questions with_key.
Proof.
  assert (Forall (λ e, ∀ i t, e ≠ TypeQuestion i t)
            [ClickRun 0; Settle 0 ThrewOther; Submit]) as H
    by (repeat (apply Forall_cons; split; [by intros ? ? |]); apply Forall_nil_2).
  split; [exact H |].
  exact (questions_change_only_by_typing engine_message _ with_key H).
Defined.

Lemma X9_witness :
  reachable engine_message (run engine_message to_busy initial)
  ∧ length (questions (run engine_message to_busy initial)) = 5.
Proof.
  split; [exact to_busy_reachable |].
  exact (page_always_has_five_slots engine_message _ to_busy_reachable).
Defined.

Lemma X10_witness :
  reachable engine_message (run engine_message to_busy initial)
  ∧ NoDup (apiKeys (run engine_message to_busy initial))
  ∧ (∀ k, k ∈ apiKeys (run engine_message to_busy initial) → trim k = k ∧ k ≠ "").
Proof.
  destruct (page_keys_are_trimmed_and_distinct engine_message _ to_busy_reachable)
    as (Hn & Ht & _).
  split_and!; [exact to_busy_reachable | exact Hn | exact Ht].
Defined.

Lemma X11_witness :
  reachable engine_message (run engine_message to_busy initial)
  ∧ questions (run engine_message to_busy initial) !! 0
    = Some (with_isLoading true (blank "J.K. 롤링의 해리포터 찾아줘."))
  ∧ ∃ id c, id ∈ pending (run engine_message to_busy initial)
            ∧ calls (run engine_message to_busy initial) !! id = Some c
            ∧ call_index c = 0.
Proof.
  destruct (page_loading_iff_call_awaited engine_message _ 0 _ to_busy_reachable eq_refl)
    as ([H _] & _).
  split_and!; [exact to_busy_reachable | reflexivity | exact (H eq_refl)].
Defined.

Lemma X12_witness :
  reachable engine_message (run engine_message to_busy initial)
  ∧ questions (run engine_message to_busy initial) !! 0
    = Some (with_isLoading true (blank "J.K. 롤링의 해리포터 찾아줘."))
  ∧ isLoading (with_isLoading true (blank "J.K. 롤링의 해리포터 찾아줘.")) = true
  ∧ result (with_isLoading true (blank "J.K. 롤링의 해리포터 찾아줘.")) = None.
Proof.
  destruct (page_loading_slot_shows_nothing engine_message _ 0 _ to_busy_reachable
              eq_refl eq_refl) as [H _].
  split_and!; [exact to_busy_reachable | reflexivity | reflexivity | exact H].
Defined.

Lemma X13_witness :
  reachable engine_message (run engine_message rerun_without_key initial)
  ∧ questions (run engine_message rerun_without_key initial) !! 0
    = Some {| question := "J.K. 롤링의 해리포터 찾아줘.";
              result := Some (BookInfo_json harry_potter);
              error := Some "API 키와 질문을 모두 입력해주세요."; isLoading := false |}
  ∧ "API 키와 질문을 모두 입력해주세요." = MSG_REQUIRED.
Proof.
  assert (questions (run engine_message rerun_without_key initial) !! 0
          = Some {| question := "J.K. 롤링의 해리포터 찾아줘.";
                    result := Some (BookInfo_json harry_potter);
                    error := Some "API 키와 질문을 모두 입력해주세요.";
                    isLoading := false |}) as Hq by (vm_compute; reflexivity).
  split_and!; [exact rerun_reachable | exact Hq |].
  exact (page_result_beside_error_only_from_check engine_message _ 0 _ _ _
           rerun_reachable Hq eq_refl eq_refl).
Defined.

Lemma X14_witness :
  reachable engine_message (run engine_message rerun_without_key initial)
  ∧ enabled (run engine_message rerun_without_key initial) Submit = true
  ∧ pending (run engine_message rerun_without_key initial) = [].
Proof.
  assert (enabled (run engine_message rerun_without_key initial) Submit = true) as Hen
    by (vm_compute; reflexivity).
  split_and!; [exact rerun_reachable | exact Hen |].
  exact (page_run_all_enabled_only_when_nothing_awaited engine_message _
           rerun_reachable Hen).
Defined.

Lemma X15_witness :
  trim (selectedApiKey two_of_five) ≠ ""
  ∧ (∃ i q, questions two_of_five !! i = Some q ∧ trim (question q) ≠ "")
  ∧ calls (fst (handleSubmitAll two_of_five))
    = [ {| call_index := 1; call_apiKey := "k1"; call_question := "Dune" |};
        {| call_index := 3; call_apiKey := "k1"; call_question := "Emma" |} ]
  ∧ snd (handleSubmitAll two_of_five)
    = [Fulfilled; Awaits 0; Fulfilled; Awaits 1; Fulfilled].
Proof.
  assert (trim (selectedApiKey two_of_five) ≠ "") as Hk by discriminate.
  assert (∃ i q, questions two_of_five !! i = Some q ∧ trim (question q) ≠ "") as Hq
    by (exists 1, (blank "Dune"); split; [reflexivity | discriminate]).
  destruct (submit_all_runs_every_filled_slot two_of_five Hk Hq) as (Hc & _ & Hp & _).
  split_and!; [exact Hk | exact Hq | exact Hc | exact Hp].
Defined.

Lemma X17_witness :
  reachable engine_message (run engine_message to_busy initial)
  ∧ calls (run engine_message to_busy initial) !! 0
    = Some {| call_index := 0; call_apiKey := "k1";
              call_question := "J.K. 롤링의 해리포터 찾아줘." |}
  ∧ trim "k1" ≠ "" ∧ trim "J.K. 롤링의 해리포터 찾아줘." ≠ "".
Proof.
  destruct (page_never_calls_with_blank_key_or_question engine_message _ 0 _
              to_busy_reachable eq_refl) as (Hk & Ht & _).
  split_and!; [exact to_busy_reachable | reflexivity | exact Hk | exact Ht].
Defined.
